(** * @tfpkgr/utils: a shallow embedding of the four utilities

    The package is four independent helpers:
    - [obscure], [obscure.email], [obscure.phone]   (class [Obscure]);
    - [uuidGenerator]                               (utils/uuid-generator.ts);
    - [generateUniqueId];
    - [stringifyParams].

    Conventions of the embedding.
    - A JavaScript string is a [string]; one [ascii] stands for one UTF-16
      code unit in the range U+0000..U+00FF.
    - A JavaScript number used as a count or an index is a [Z].
    - [throw new Error(...)] becomes the [Throw] constructor of [result];
      the error carries what is needed to rebuild its message.  The one
      error of the host that a call of the package can run into on
      well-typed input, the refusal of [crypto.getRandomValues] to fill
      more than 65536 bytes, is an error of the same type.
    - The clock, the entropy source and the two UUID primitives of
      [@tfpkgr/uuid] are arguments of the functions that read them. *)

From Stdlib Require Import ZArith NArith List Bool Ascii String Lia.
From Stdlib Require Import Numbers.DecimalString.
Import ListNotations.

Open Scope string_scope.

(** ** Errors and results *)

Inductive error : Type :=
| InvalidRange
| InvalidLength (timestampLength : nat)
| InvalidParams
| InvalidSeparator
| QuotaExceeded (byteLength : nat).

Inductive result (A : Type) : Type :=
| Ok (a : A)
| Throw (e : error).

Arguments Ok {A} a.
Arguments Throw {A} e.

Definition bind {A B : Type} (r : result A) (k : A -> result B) : result B :=
  match r with
  | Ok a => k a
  | Throw e => Throw e
  end.

Notation "'let*' x ':=' r 'in' k" := (bind r (fun x => k))
  (at level 10, x name, r at level 100, k at level 200).

(** ** The string primitives of the host language *)

Module Js.

(** The first [n] code units of [s]. *)
Fixpoint take (n : nat) (s : string) : string :=
  match n, s with
  | S n', String c s' => String c (take n' s')
  | _, _ => EmptyString
  end.

(** [s] without its first [n] code units. *)
Fixpoint drop (n : nat) (s : string) : string :=
  match n, s with
  | S n', String _ s' => drop n' s'
  | _, _ => s
  end.

(** How [String.prototype.slice] resolves one of its arguments against the
    length: a negative index counts from the end, and the result is clamped
    to [0, len]. *)
Definition relativeIndex (len i : Z) : Z :=
  if (i <? 0)%Z then Z.max (len + i) 0 else Z.min i len.

(** [s.slice(from, to)] *)
Definition slice (s : string) (from to : Z) : string :=
  let len := Z.of_nat (String.length s) in
  let k := relativeIndex len from in
  let final := relativeIndex len to in
  take (Z.to_nat (final - k)) (drop (Z.to_nat k) s).

(** [s.slice(from)]: the second argument defaults to the length. *)
Definition sliceFrom (s : string) (from : Z) : string :=
  slice s from (Z.of_nat (String.length s)).

(** [s.repeat(n)] for a count [n >= 0]. *)
Fixpoint repeat (s : string) (n : nat) : string :=
  match n with
  | O => EmptyString
  | S n' => s ++ repeat s n'
  end.

(** [s.startsWith(p)] *)
Definition startsWith (s p : string) : bool := String.prefix p s.

(** [s.endsWith(p)] *)
Definition endsWith (s p : string) : bool :=
  (String.length p <=? String.length s)%nat
  && (drop (String.length s - String.length p) s =? p).

(** [s.includes(c)] for a one-character needle. *)
Fixpoint includes (s : string) (c : ascii) : bool :=
  match s with
  | EmptyString => false
  | String d s' => (d =? c)%char || includes s' c
  end.

(** [s.split(c)] for a one-character separator: the list of the maximal
    segments without [c]; it is never empty. *)
Fixpoint split (s : string) (c : ascii) : list string :=
  match s with
  | EmptyString => [EmptyString]
  | String d s' =>
      if (d =? c)%char then EmptyString :: split s' c
      else match split s' c with
           | seg :: segs => String d seg :: segs
           | [] => [String d EmptyString]
           end
  end.

(** [parts.join(sep)] *)
Definition join (parts : list string) (sep : string) : string :=
  String.concat sep parts.

(** [s.padStart(n, c)] for a one-character filler. *)
Definition padStart (s : string) (n : nat) (c : ascii) : string :=
  repeat (String c EmptyString) (n - String.length s) ++ s.

(** [s[i]] inside a string concatenation: a missing index is [undefined],
    which concatenation renders as the text "undefined". *)
Definition charAtOrUndefined (s : string) (i : nat) : string :=
  match String.get i s with
  | Some c => String c EmptyString
  | None => "undefined"
  end.

(** A JavaScript value is truthy; for a string that means non-empty. *)
Definition truthy (s : string) : bool :=
  match s with
  | EmptyString => false
  | String _ _ => true
  end.

(** [String(n)] for a number that is a safe integer
    ([|n| <= 2^53 - 1]): its decimal digits, with a minus sign when
    negative.  Other numbers (fractions, [NaN], the infinities, and the
    integers from 10^21 on, which the host prints with an exponent) have no
    counterpart in the model. *)
Definition numberToString (n : Z) : string :=
  NilZero.string_of_int (Z.to_int n).

End Js.

(** ** Obscure (unnamed/part_001) *)

Module Obscure.

(** The private fields of the class. *)
Record t : Type := mk {
  _string : string;
  _start : Z;
  _end : Z;
  _mask : string
}.

(** The constructor: an omitted argument takes the field initialiser
    ([_start = 0], [_end = 0], [_mask = '*']), which has run by the time the
    parameter defaults [start = this._start], ... are evaluated. *)
Definition new (str : string) (start end_ : option Z) (mask : option string) : t :=
  {| _string := str;
     _start := match start with Some n => n | None => 0%Z end;
     _end := match end_ with Some n => n | None => 0%Z end;
     _mask := match mask with Some m => m | None => "*" end |}.

(** The private method [obscure(str, start, end, mask)]. *)
Definition obscure (str : string) (start end_ : Z) (mask : string) : result string :=
  if ((start <? 0) || (end_ <? 0))%Z then Throw InvalidRange
  else
    let len := Z.of_nat (String.length str) in
    if (len <=? start + end_)%Z then Ok str
    else
      let maskedPart := Js.repeat mask (Z.to_nat (len - start - end_)) in
      let visibleStart := Js.slice str 0 start in
      let visibleEnd := Js.sliceFrom str (- end_) in
      Ok (visibleStart ++ maskedPart ++ visibleEnd).

Definition toString (this : t) : result string :=
  obscure (_string this) (_start this) (_end this) (_mask this).

(** [\d] *)
Definition isDigit (c : ascii) : bool :=
  let n := nat_of_ascii c in (48 <=? n)%nat && (n <=? 57)%nat.

(** [[1-9]] *)
Definition isNonZeroDigit (c : ascii) : bool :=
  let n := nat_of_ascii c in (49 <=? n)%nat && (n <=? 57)%nat.

(** The characters that [/[^\d+]/g] leaves in place, which are also the
    ones the loop of [phone] replaces: [/\d/.test(char) || char === '+']. *)
Definition isPhoneChar (c : ascii) : bool :=
  isDigit c || (c =? "+")%char.

(** [str.replace(/[^\d+]/g, '')] *)
Fixpoint normalizePhone (str : string) : string :=
  match str with
  | EmptyString => EmptyString
  | String c rest =>
      if isPhoneChar c then String c (normalizePhone rest) else normalizePhone rest
  end.

Fixpoint allDigits (s : string) : bool :=
  match s with
  | EmptyString => true
  | String c rest => isDigit c && allDigits rest
  end.

(** [/^\+?[1-9]\d{1,14}$/.test(s)] *)
Definition phoneRegex_test (s : string) : bool :=
  let unsigned := match s with
                  | String "+"%char rest => rest
                  | _ => s
                  end in
  match unsigned with
  | String d rest =>
      isNonZeroDigit d && allDigits rest
      && (1 <=? String.length rest)%nat && (String.length rest <=? 14)%nat
  | EmptyString => false
  end.

(** [email()]: the destructuring [[localPart, domain] = split('@')] keeps
    the first two segments.  [split] returns at least two segments when the
    string includes '@'; a missing [domain] would be [undefined]. *)
Definition email (this : t) : result string :=
  if negb (Js.includes (_string this) "@") then obscure (_string this) 2 2 (_mask this)
  else
    match Js.split (_string this) "@" with
    | localPart :: domain :: _ =>
        let* maskedLocalPart := obscure localPart 2 2 (_mask this) in
        Ok (maskedLocalPart ++ "@" ++ domain)
    | [localPart] =>
        let* maskedLocalPart := obscure localPart 2 2 (_mask this) in
        Ok (maskedLocalPart ++ "@" ++ "undefined")
    | [] => Ok "undefined@undefined"
    end.

(** The loop of [phone()], with its two mutable variables as arguments:
    [for (const char of this._string) ...]. *)
Fixpoint reformat (chars obscuredPhone : string) (obscuredIndex : nat)
    (formattedPhone : string) : string :=
  match chars with
  | EmptyString => formattedPhone
  | String char rest =>
      if isDigit char || (char =? "+")%char
      then reformat rest obscuredPhone (S obscuredIndex)
             (formattedPhone ++ Js.charAtOrUndefined obscuredPhone obscuredIndex)
      else reformat rest obscuredPhone obscuredIndex
             (formattedPhone ++ String char EmptyString)
  end.

Definition phone (this : t) : result string :=
  let normalizedPhone := normalizePhone (_string this) in
  if negb (phoneRegex_test normalizedPhone) then obscure (_string this) 2 2 (_mask this)
  else
    let* obscuredPhone := obscure normalizedPhone 2 2 (_mask this) in
    Ok (reformat (_string this) obscuredPhone 0 "").

End Obscure.

(** The exported callable [obscure] and its two attached operations. *)
Definition obscure (str : string) (start end_ : option Z) (mask : option string)
  : result string :=
  Obscure.toString (Obscure.new str start end_ mask).

Definition obscure_email (str : string) : result string :=
  Obscure.email (Obscure.new str None None None).

Definition obscure_phone (str : string) : result string :=
  Obscure.phone (Obscure.new str None None None).

(** ** uuidGenerator (src/utils/uuid-generator.ts) *)

Module UuidGenerator.

Record UUIDGeneratorOptions : Type := mkOptions {
  prefix : option string;
  suffix : option string;
  separator : option string
}.

(** The default value of the [options] parameter, [{}]. *)
Definition noOptions : UUIDGeneratorOptions :=
  {| prefix := None; suffix := None; separator := None |}.

(** [field || '']: an absent field and an empty one both give the empty
    string. *)
Definition orEmpty (field : option string) : string :=
  match field with
  | Some s => if Js.truthy s then s else EmptyString
  | None => EmptyString
  end.

Section Generator.

(** The two primitives of [@tfpkgr/uuid]: the identifier that [uuid()]
    returns at this call, and the name-based hash [uuid.v5]. *)
Variable uuid : string.
Variable uuid_v5 : string -> string -> string.

Definition uuidGenerator (name namespace : string) (options : UUIDGeneratorOptions)
  : string :=
  let id := uuid in
  let hash := uuid_v5 name namespace in
  let prefix := orEmpty (prefix options) in
  let suffix := orEmpty (suffix options) in
  let separator := orEmpty (separator options) in
  let result := EmptyString in
  let result := if Js.truthy prefix then result ++ (prefix ++ separator) else result in
  let result := if Js.truthy hash then result ++ (hash ++ separator) else result in
  let result := if Js.truthy id then result ++ (id ++ separator) else result in
  let result := if Js.truthy suffix then result ++ suffix else result in
  let result :=
    if Js.endsWith result separator
    then Js.slice result 0 (- Z.of_nat (String.length separator))
    else result in
  let result :=
    if Js.startsWith result separator
    then Js.sliceFrom result (Z.of_nat (String.length separator))
    else result in
  result.

End Generator.

End UuidGenerator.

(** ** generateUniqueId *)

Module UniqueId.

(** One digit of [Number.prototype.toString(36)]: 0-9 then a-z. *)
Definition digit36 (d : N) : ascii :=
  if (d <? 10)%N then ascii_of_N (48 + d) else ascii_of_N (87 + d).

(** The digits of [n] in base 36, most significant first, in front of
    [acc].  [fuel] bounds the number of digits. *)
Fixpoint toString36_digits (fuel : nat) (n : N) (acc : string) : string :=
  match fuel with
  | O => acc
  | S fuel' =>
      let acc' := String (digit36 (n mod 36)) acc in
      if (n / 36 =? 0)%N then acc' else toString36_digits fuel' (n / 36) acc'
  end.

(** [n.toString(36)] for a non-negative integer; a number below [2^k] has at
    most [k] digits. *)
Definition toString36 (n : N) : string :=
  toString36_digits (S (N.to_nat (N.log2 n))) n EmptyString.

(** The value a base-36 digit stands for. *)
Definition digit36_value (c : ascii) : N :=
  let n := N_of_ascii c in
  if (n <? 58)%N then n - 48 else n - 87.

(** Reading a base-36 numeral back, used to state that [toString36] prints
    the number it is given. *)
Fixpoint parse36 (acc : N) (s : string) : N :=
  match s with
  | EmptyString => acc
  | String c rest => parse36 (36 * acc + digit36_value c) rest
  end.

(** [if (x)] on an optional string argument: absent and empty are falsy. *)
Definition given (arg : option string) : bool :=
  match arg with
  | Some s => Js.truthy s
  | None => false
  end.

Definition valueOf (arg : option string) : string :=
  match arg with
  | Some s => s
  | None => "undefined"
  end.

Section Generator.

(** [Date.now()], and the bytes that [crypto.getRandomValues] delivers:
    [entropy i] is the byte written at index [i]. *)
Variable now : N.
Variable entropy : nat -> Byte.byte.

(** The typed array of [n] bytes once the entropy source has written it. *)
Definition filled (n : nat) : list Byte.byte :=
  map entropy (seq 0 n).

(** [crypto.getRandomValues(new Uint8Array(n))]: a request for more than
    65536 bytes is refused with a [QuotaExceededError]; otherwise the array
    comes back filled.  (A length beyond what the engine can allocate makes
    [new Uint8Array] itself throw; such a call fails as well.) *)
Definition getRandomValues (n : nat) : result (list Byte.byte) :=
  if (65536 <? Z.of_nat n)%Z then Throw (QuotaExceeded n) else Ok (filled n).

Definition generateUniqueId (length : option Z) (prefix suffix : option string)
  : result string :=
  let length := match length with Some n => n | None => 16%Z end in
  let timestamp := toString36 now in
  if (length <? Z.of_nat (String.length timestamp))%Z
  then Throw (InvalidLength (String.length timestamp))
  else
    let* randomBytes := getRandomValues (Z.to_nat length) in
    let randomPart :=
      Js.slice
        (Js.join
           (map (fun b => Js.padStart (toString36 (Byte.to_N b)) 2 "0") randomBytes)
           EmptyString)
        0 length in
    let coreId := timestamp ++ randomPart in
    let parts : list string := [] in
    let parts := if given prefix then (parts ++ [valueOf prefix])%list else parts in
    let parts := (parts ++ [coreId])%list in
    let parts := if given suffix then (parts ++ [valueOf suffix])%list else parts in
    Ok (Js.join parts "_").

End Generator.

End UniqueId.

(** ** stringifyParams (unnamed/part_002) *)

Module StringifyParams.

(** A value found under a key or inside an array.  A number is a safe
    integer ([|n| <= 2^53 - 1]).
    An object carries what [JSON.stringify] makes of it: [Some json], or
    [None] when [JSON.stringify] throws (a circular structure). *)
Inductive element : Type :=
| Null
| Undefined
| Bool (b : bool)
| Number (n : Z)
| Str (s : string)
| Object (json : option string).

(** The value of one entry: [Array.isArray(value)] or not. *)
Inductive paramValue : Type :=
| Single (value : element)
| Array (values : list element).

(** What a caller can pass as [params] at run time.  Only [Mapping] is of
    type [StringifyParams]; its entries are in [Object.entries] order. *)
Inductive params : Type :=
| Mapping (entries : list (string * paramValue))
| NullParams
| ArrayParams (values : list element)
| NotAnObject (value : element).

Inductive ArrayType : Type := comma | bracket | none | exclude.

Inductive ReturnType : Type := string_ | URLSearchParams.

Record StringifyParamsOptions : Type := mkOptions {
  separator : option string;
  arrayType : option ArrayType;
  serializeObjects : option bool;
  returnType : option ReturnType
}.

(** The two shapes of the result. *)
Inductive output : Type :=
| AsString (s : string)
| AsURLSearchParams (pairs : list (string * string)).

Definition normalizeValue (value : element) (allowObjects : bool) : string :=
  match value with
  | Null | Undefined => EmptyString
  | Bool b => if b then "true" else "false"
  | Number n => Js.numberToString n
  | Str s => s
  | Object json =>
      if allowObjects
      then match json with
           | Some text => text
           | None => EmptyString
           end
      else EmptyString
  end.

Definition validateParams (p : params) : result (list (string * paramValue)) :=
  match p with
  | Mapping entries => Ok entries
  | NullParams | ArrayParams _ | NotAnObject _ => Throw InvalidParams
  end.

(** The characters [encodeURIComponent] leaves alone:
    A-Z a-z 0-9 - _ . ! ~ * ' ( ) *)
Definition isUnreserved (c : ascii) : bool :=
  let n := nat_of_ascii c in
  ((65 <=? n) && (n <=? 90))%nat || ((97 <=? n) && (n <=? 122))%nat
  || ((48 <=? n) && (n <=? 57))%nat
  || existsb (Nat.eqb n) [45; 95; 46; 33; 126; 42; 39; 40; 41].

Definition hexDigit (d : N) : ascii :=
  if (d <? 10)%N then ascii_of_N (48 + d) else ascii_of_N (55 + d).

(** [%XX] with upper-case hexadecimal digits. *)
Definition percent (byte : N) : string :=
  String "%" (String (hexDigit (byte / 16)) (String (hexDigit (byte mod 16)) EmptyString)).

(** The UTF-8 bytes of a code unit below U+0100. *)
Definition utf8 (c : ascii) : list N :=
  let n := N_of_ascii c in
  if (n <? 128)%N then [n] else [192 + n / 64; 128 + n mod 64]%N.

(** [encodeURIComponent] on the strings of the model.  Their code units
    are below U+0100, so none is a surrogate, and the [URIError] that the
    host raises on a lone surrogate has no input here: on these strings the
    function always returns. *)
Fixpoint encodeURIComponent (s : string) : string :=
  match s with
  | EmptyString => EmptyString
  | String c rest =>
      (if isUnreserved c then String c EmptyString
       else String.concat EmptyString (map percent (utf8 c)))
      ++ encodeURIComponent rest
  end.

(** The body of the loop over [Object.entries(params)]: the pairs that one
    entry pushes onto [keyValuePairs]. *)
Definition entryPairs (arrayType : ArrayType) (serializeObjects : bool)
    (entry : string * paramValue) : list (string * string) :=
  let (key, value) := entry in
  let encodedKey := encodeURIComponent key in
  match value with
  | Array values =>
      match arrayType with
      | exclude => []
      | _ =>
          let encodedValues :=
            map (fun val => encodeURIComponent (normalizeValue val serializeObjects))
              values in
          match arrayType with
          | comma => [(encodedKey, Js.join encodedValues ",")]
          | bracket => map (fun val => (encodedKey ++ "[]", val)) encodedValues
          | _ => map (fun val => (encodedKey, val)) encodedValues
          end
      end
  | Single value =>
      let encodedValue := encodeURIComponent (normalizeValue value serializeObjects) in
      [(encodedKey, encodedValue)]
  end.

Definition stringifyParams (p : params) (options : StringifyParamsOptions)
  : result output :=
  let* entries := validateParams p in
  let separator := match separator options with Some s => s | None => "&" end in
  let arrayType := match arrayType options with Some a => a | None => none end in
  let serializeObjects :=
    match serializeObjects options with Some b => b | None => false end in
  let returnType := returnType options in
  if match returnType with
     | Some string_ =>
         (String.length separator =? 0)%nat || Js.includes separator "="
     | _ => false
     end
  then Throw InvalidSeparator
  else
    let keyValuePairs :=
      fold_left
        (fun pairs entry => (pairs ++ entryPairs arrayType serializeObjects entry)%list)
        entries [] in
    match returnType with
    | Some URLSearchParams => Ok (AsURLSearchParams keyValuePairs)
    | _ =>
        Ok (AsString
              (Js.join (map (fun '(k, v) => k ++ "=" ++ v) keyValuePairs) separator))
    end.

End StringifyParams.

(** The text of each [Error] the package throws. *)
Definition message (e : error) : string :=
  match e with
  | InvalidRange => "Start and end values must be non-negative."
  | InvalidLength timestampLength =>
      "Length must be greater than or equal to the length of the timestamp ("
      ++ Js.numberToString (Z.of_nat timestampLength) ++ ")."
  | InvalidParams => "Parameters must be a non-null object and not an array."
  | InvalidSeparator => "Invalid separator for string returnType."
  | QuotaExceeded byteLength =>
      "The ArrayBufferView's byte length ("
      ++ Js.numberToString (Z.of_nat byteLength)
      ++ ") exceeds the number of bytes of entropy available via this API (65536)"
  end.

(** ** The specification's reading of the operations

    Definitions written from the prose of the specification, to be compared
    with the functions above. *)

Module Spec.

(** "visible prefix = first [start] characters; visible suffix = last [end]
    characters; masked middle = [mask] repeated [len(str)-start-end] times." *)
Definition masked (str : string) (start end_ : nat) (mask : string) : string :=
  Js.take start str
  ++ Js.repeat mask (String.length str - start - end_)
  ++ Js.drop (String.length str - end_) str.

(** "split on the first @ into local-part and domain": what stands before
    the first [c], and everything after it. *)
Fixpoint splitFirst (s : string) (c : ascii) : string * string :=
  match s with
  | EmptyString => (EmptyString, EmptyString)
  | String d rest =>
      if (d =? c)%char then (EmptyString, rest)
      else let (before, after) := splitFirst rest c in (String d before, after)
  end.

(** "If the string contains no @, fall back to obscure(str, 2, 2).  Else
    split on the first @ into local-part and domain.  Mask local-part with
    obscure(localPart, 2, 2).  Domain is never masked.
    Result = maskedLocal + @ + domain." *)
Definition email (str : string) : result string :=
  if Js.includes str "@" then
    let (localPart, domain) := splitFirst str "@" in
    let* maskedLocal := Obscure.obscure localPart 2 2 "*" in
    Ok (maskedLocal ++ "@" ++ domain)
  else Obscure.obscure str 2 2 "*".

(** "Assembles components in fixed order - prefix, hash, random id, suffix -
    including only non-empty components, joining with [separator] between
    every included component." *)
Definition assemble (prefix hash id suffix separator : string) : string :=
  Js.join (filter Js.truthy [prefix; hash; id; suffix]) separator.

(** "each byte is independently encoded to a 2-character base-36 string
    (zero-padded)": the two base-36 digits of the byte. *)
Definition encodeByte (b : Byte.byte) : string :=
  let n := Byte.to_N b in
  String (UniqueId.digit36 (n / 36)) (String (UniqueId.digit36 (n mod 36)) EmptyString).

(** "concatenated, then truncated to exactly [length] characters" *)
Definition randomPart (bytes : list Byte.byte) (length : nat) : string :=
  Js.take length (String.concat EmptyString (map encodeByte bytes)).

(** "join non-empty components among [prefix, coreId, suffix] using _ as
    separator"; an absent component counts as empty. *)
Definition uniqueId (prefix : option string) (coreId : string) (suffix : option string)
  : string :=
  let text (o : option string) := match o with Some s => s | None => EmptyString end in
  Js.join (filter Js.truthy [text prefix; coreId; text suffix]) "_".

End Spec.

(** ** The accessors of the class Obscure (unnamed/part_001, lines 63-121)

    Each setter assigns one private field; each getter reads it. *)

Module ObscureAccessors.

Definition set_mask (this : Obscure.t) (mask : string) : Obscure.t :=
  Obscure.mk (Obscure._string this) (Obscure._start this) (Obscure._end this) mask.

Definition get_mask (this : Obscure.t) : string := Obscure._mask this.

Definition set_start (this : Obscure.t) (start : Z) : Obscure.t :=
  Obscure.mk (Obscure._string this) start (Obscure._end this) (Obscure._mask this).

Definition get_start (this : Obscure.t) : Z := Obscure._start this.

Definition set_end (this : Obscure.t) (end_ : Z) : Obscure.t :=
  Obscure.mk (Obscure._string this) (Obscure._start this) end_ (Obscure._mask this).

Definition get_end (this : Obscure.t) : Z := Obscure._end this.

Definition set_string (this : Obscure.t) (str : string) : Obscure.t :=
  Obscure.mk str (Obscure._start this) (Obscure._end this) (Obscure._mask this).

Definition get_string (this : Obscure.t) : string := Obscure._string this.

End ObscureAccessors.

(** ** Vocabulary for statements about characters *)

Module Chars.

(** Every character of [s] satisfies [p]. *)
Fixpoint all (p : ascii -> bool) (s : string) : bool :=
  match s with
  | EmptyString => true
  | String c rest => p c && all p rest
  end.

(** 0-9 and a-z. *)
Definition isBase36 (c : ascii) : bool :=
  let n := nat_of_ascii c in
  ((48 <=? n) && (n <=? 57))%nat || ((97 <=? n) && (n <=? 122))%nat.

(** Neither '=' nor '&'. *)
Definition isNotDelimiter (c : ascii) : bool :=
  negb (c =? "=")%char && negb (c =? "&")%char.

End Chars.

(** ** Vocabulary for statements about entries *)

Module Entries.

(** The entry's value is not an array. *)
Definition isScalar (entry : string * StringifyParams.paramValue) : bool :=
  match snd entry with
  | StringifyParams.Single _ => true
  | StringifyParams.Array _ => false
  end.

(** How the string form renders one pair. *)
Definition render (pair : string * string) : string :=
  fst pair ++ "=" ++ snd pair.

(** For each pair that none mode and bracket mode generate, in order,
    whether it comes from an array entry: a scalar entry gives one pair, an
    array entry one pair per element. *)
Definition arrayTags (entries : list (string * StringifyParams.paramValue)) : list bool :=
  flat_map
    (fun entry =>
       match snd entry with
       | StringifyParams.Single _ => [false]
       | StringifyParams.Array values => map (fun _ => true) values
       end)
    entries.

(** The key of a pair in bracket mode, from its key in none mode. *)
Definition bracketKey (tagged : bool * string) : string :=
  if fst tagged then snd tagged ++ "[]" else snd tagged.

(** A destructured option with its default: [{ field = default } = options]. *)
Definition withDefault {A : Type} (field : option A) (default : A) : A :=
  match field with
  | Some a => a
  | None => default
  end.

End Entries.

(** * Properties *)

(** ** Facts about the string primitives *)

Module JsFacts.

Lemma length_app (a b : string) :
  String.length (a ++ b) = String.length a + String.length b.
Proof. induction a as [|c a IH]; simpl; [reflexivity | now rewrite IH]. Qed.

Lemma app_empty_r (a : string) : a ++ EmptyString = a.
Proof. induction a as [|c a IH]; simpl; [reflexivity | now rewrite IH]. Qed.

Lemma app_assoc (a b c : string) : (a ++ b) ++ c = a ++ (b ++ c).
Proof. induction a as [|x a IH]; simpl; [reflexivity | now rewrite IH]. Qed.

Lemma length_take (n : nat) (s : string) :
  String.length (Js.take n s) = Nat.min n (String.length s).
Proof.
  revert s; induction n as [|n IH]; intros [|c s]; simpl; try reflexivity.
  now rewrite IH.
Qed.

Lemma length_drop (n : nat) (s : string) :
  String.length (Js.drop n s) = String.length s - n.
Proof.
  revert s; induction n as [|n IH]; intros [|c s]; simpl; try reflexivity.
  apply IH.
Qed.

Lemma take_drop (n : nat) (s : string) : Js.take n s ++ Js.drop n s = s.
Proof.
  revert s; induction n as [|n IH]; intros [|c s]; simpl; try reflexivity.
  now rewrite IH.
Qed.

Lemma take_all (n : nat) (s : string) :
  String.length s <= n -> Js.take n s = s.
Proof.
  revert s; induction n as [|n IH]; intros [|c s]; simpl; intros H;
    try reflexivity; try lia.
  now rewrite IH by lia.
Qed.

Lemma drop_0 (s : string) : Js.drop 0 s = s.
Proof. now destruct s. Qed.

Lemma take_app_length (a b : string) : Js.take (String.length a) (a ++ b) = a.
Proof. induction a as [|c a IH]; simpl; [now destruct b | now rewrite IH]. Qed.

Lemma drop_app_length (a b : string) : Js.drop (String.length a) (a ++ b) = b.
Proof. induction a as [|c a IH]; simpl; [apply drop_0 | exact IH]. Qed.

Lemma length_repeat (m : string) (k : nat) :
  String.length (Js.repeat m k) = String.length m * k.
Proof.
  induction k as [|k IH]; simpl; [lia |].
  rewrite length_app, IH; lia.
Qed.

(** [s.slice(0, n)] is the first [n] code units when [0 <= n]. *)
Lemma slice_0 (s : string) (n : Z) :
  (0 <= n)%Z -> Js.slice s 0 n = Js.take (Z.to_nat n) s.
Proof.
  intros Hn. unfold Js.slice, Js.relativeIndex.
  replace (0 <? 0)%Z with false by reflexivity.
  destruct (n <? 0)%Z eqn:E; [apply Z.ltb_lt in E; lia |].
  replace (Z.to_nat (Z.min 0 (Z.of_nat (String.length s)))) with 0 by lia.
  rewrite drop_0.
  destruct (Z.le_ge_cases n (Z.of_nat (String.length s))) as [H|H].
  - f_equal. lia.
  - rewrite !take_all; trivial; lia.
Qed.

(** [s.slice(-n)] is the last [n] code units when [0 < n <= length]. *)
Lemma sliceFrom_negative (s : string) (n : Z) :
  (0 < n <= Z.of_nat (String.length s))%Z ->
  Js.sliceFrom s (- n) = Js.drop (String.length s - Z.to_nat n) s.
Proof.
  intros Hn. unfold Js.sliceFrom, Js.slice, Js.relativeIndex.
  destruct (- n <? 0)%Z eqn:E; [| apply Z.ltb_ge in E; lia].
  destruct (Z.of_nat (String.length s) <? 0)%Z eqn:E'; [apply Z.ltb_lt in E'; lia |].
  replace (Z.to_nat (Z.max (Z.of_nat (String.length s) + - n) 0))
    with (String.length s - Z.to_nat n) by lia.
  apply take_all. rewrite length_drop. lia.
Qed.

(** [s.slice(-0)] is [s.slice(0)]: the whole string. *)
Lemma sliceFrom_0 (s : string) : Js.sliceFrom s 0 = s.
Proof.
  unfold Js.sliceFrom, Js.slice, Js.relativeIndex.
  replace (0 <? 0)%Z with false by reflexivity.
  destruct (Z.of_nat (String.length s) <? 0)%Z eqn:E'; [apply Z.ltb_lt in E'; lia |].
  replace (Z.to_nat (Z.min 0 (Z.of_nat (String.length s)))) with 0 by lia.
  rewrite drop_0. apply take_all. lia.
Qed.

Create Rewrite HintDb js_length.
#[global] Hint Rewrite length_app length_take length_drop length_repeat : js_length.

End JsFacts.

(** ** Obscure *)

Module ObscureFacts.

(** Where something is masked and [end > 0], the method computes the three
    parts the specification names. *)
Lemma obscure_masks_middle (str : string) (start end_ : Z) (mask : string) :
  (0 <= start)%Z -> (0 < end_)%Z ->
  (start + end_ < Z.of_nat (String.length str))%Z ->
  Obscure.obscure str start end_ mask
  = Ok (Spec.masked str (Z.to_nat start) (Z.to_nat end_) mask).
Proof.
  intros Hs He Hlen. unfold Obscure.obscure.
  destruct (start <? 0)%Z eqn:E1; [apply Z.ltb_lt in E1; lia |].
  destruct (end_ <? 0)%Z eqn:E2; [apply Z.ltb_lt in E2; lia |].
  simpl orb. cbv iota.
  destruct (Z.of_nat (String.length str) <=? start + end_)%Z eqn:E3;
    [apply Z.leb_le in E3; lia |].
  cbv zeta. rewrite JsFacts.slice_0 by lia.
  rewrite JsFacts.sliceFrom_negative by lia.
  unfold Spec.masked.
  replace (Z.to_nat (Z.of_nat (String.length str) - start - end_))
    with (String.length str - Z.to_nat start - Z.to_nat end_) by lia.
  reflexivity.
Qed.

(** With [end = 0] the suffix [str.slice(-0)] is the whole string. *)
Lemma obscure_end_0 (str : string) (start : Z) (mask : string) :
  (0 <= start < Z.of_nat (String.length str))%Z ->
  Obscure.obscure str start 0 mask
  = Ok (Js.take (Z.to_nat start) str
        ++ Js.repeat mask (String.length str - Z.to_nat start)
        ++ str).
Proof.
  intros Hs. unfold Obscure.obscure.
  destruct (start <? 0)%Z eqn:E1; [apply Z.ltb_lt in E1; lia |].
  simpl orb. cbv iota.
  destruct (Z.of_nat (String.length str) <=? start + 0)%Z eqn:E3;
    [apply Z.leb_le in E3; lia |].
  cbv zeta. rewrite JsFacts.slice_0 by lia.
  change (- 0)%Z with 0%Z. rewrite JsFacts.sliceFrom_0.
  replace (Z.to_nat (Z.of_nat (String.length str) - start - 0))
    with (String.length str - Z.to_nat start) by lia.
  reflexivity.
Qed.

(** The length of a masked result, for any mask and [end > 0]. *)
Lemma obscure_length (str : string) (start end_ : Z) (mask out : string) :
  (0 <= start)%Z -> (0 < end_)%Z ->
  (start + end_ < Z.of_nat (String.length str))%Z ->
  Obscure.obscure str start end_ mask = Ok out ->
  Z.of_nat (String.length out)
  = (start + end_
     + Z.of_nat (String.length mask) * (Z.of_nat (String.length str) - start - end_))%Z.
Proof.
  intros Hs He Hlen Hout.
  rewrite obscure_masks_middle in Hout by assumption.
  injection Hout as <-. unfold Spec.masked.
  autorewrite with js_length. nia.
Qed.

(** Nothing is masked when the visible counts cover the string. *)
Lemma obscure_short_is_identity_general (str : string) (start end_ : Z) (mask : string) :
  (0 <= start)%Z -> (0 <= end_)%Z ->
  (Z.of_nat (String.length str) <= start + end_)%Z ->
  Obscure.obscure str start end_ mask = Ok str.
Proof.
  intros Hs He Hlen. unfold Obscure.obscure.
  destruct (start <? 0)%Z eqn:E1; [apply Z.ltb_lt in E1; lia |].
  destruct (end_ <? 0)%Z eqn:E2; [apply Z.ltb_lt in E2; lia |].
  simpl orb. cbv iota zeta.
  destruct (Z.of_nat (String.length str) <=? start + end_)%Z eqn:E3;
    [reflexivity | apply Z.leb_gt in E3; lia].
Qed.

(** C9: when [start + end >= len(str)], for non-negative [start] and [end]
    and any mask, [obscure] returns [str] itself, unmodified; the exported
    function with the same four arguments does the same. *)
Theorem obscure_short_is_identity (str : string) (start end_ : Z) (mask : string) :
  (0 <= start)%Z -> (0 <= end_)%Z ->
  (start + end_ >= Z.of_nat (String.length str))%Z ->
  Obscure.obscure str start end_ mask = Ok str
  /\ obscure str (Some start) (Some end_) (Some mask) = Ok str.
Proof.
  intros Hs He Hlen.
  assert (H : Obscure.obscure str start end_ mask = Ok str)
    by (apply obscure_short_is_identity_general; lia).
  split; [exact H | exact H].
Qed.

(** [obscure('ab', 2, 2)] is ['ab']. *)
Lemma obscure_short_is_identity_witness :
  Obscure.obscure "ab" 2 2 "*" = Ok "ab"
  /\ obscure "ab" (Some 2%Z) (Some 2%Z) (Some "*") = Ok "ab".
Proof.
  apply (obscure_short_is_identity "ab" 2 2 "*"); simpl; lia.
Defined.

(** C2: at [end = 0] the method does not return prefix, mask, empty suffix:
    [obscure('hello', 2, 0, '*')] is ['he***hello'], of length 10, where the
    three parts the specification names give ['he***'], of length 5. *)
Theorem obscure_end_zero_appends_whole_string :
  Obscure.obscure "hello" 2 0 "*" = Ok "he***hello"
  /\ Spec.masked "hello" 2 0 "*" = "he***"
  /\ obscure "hello" (Some 2%Z) None None = Ok "he***hello".
Proof. repeat split. Qed.

(** C10: at [end = 0] the length of the result is not
    [start + end + len(m) * (len(str) - start - end)]:
    [obscure('abc', 1, 0, '##')] is ['a####abc'], of length 8 and not 5; and
    [obscure('abc', 0, 0, '')] is ['abc'], as long as the input although the
    mask is not one character long. *)
Theorem obscure_end_zero_length :
  Obscure.obscure "abc" 1 0 "##" = Ok "a####abc"
  /\ String.length "a####abc" <> 1 + 0 + String.length "##" * (String.length "abc" - 1 - 0)
  /\ Obscure.obscure "abc" 0 0 EmptyString = Ok "abc".
Proof. repeat split. simpl. lia. Qed.

(** *** email *)

Lemma split_without_separator (s : string) (c : ascii) :
  Js.includes s c = false -> Js.split s c = [s].
Proof.
  induction s as [|d s IH]; simpl; [reflexivity |].
  destruct (d =? c)%char; simpl; [discriminate |].
  intros H. now rewrite IH.
Qed.

Lemma split_at_first (s : string) (c : ascii) :
  Js.includes s c = true ->
  Js.split s c
  = fst (Spec.splitFirst s c) :: Js.split (snd (Spec.splitFirst s c)) c.
Proof.
  induction s as [|d s IH]; simpl; [discriminate |].
  destruct (d =? c)%char; simpl; [reflexivity |].
  intros H. rewrite (IH H).
  destruct (Spec.splitFirst s c) as [before after]. reflexivity.
Qed.

Lemma split_head (s : string) (c : ascii) :
  exists segs, Js.split s c = fst (Spec.splitFirst s c) :: segs.
Proof.
  destruct (Js.includes s c) eqn:E.
  - eexists. now apply split_at_first.
  - rewrite (split_without_separator _ _ E). exists [].
    f_equal. clear -E. induction s as [|d s IH]; simpl in *; [reflexivity |].
    destruct (d =? c)%char; simpl in *; [discriminate |].
    destruct (Spec.splitFirst s c) as [before after]. simpl in *.
    now rewrite <- IH.
Qed.

(** What [email()] returns for a string with an '@': the masked local part,
    '@', and the segment between the first '@' and the next one. *)
Lemma email_with_at (str : string) :
  Js.includes str "@" = true ->
  obscure_email str
  = let (localPart, rest) := Spec.splitFirst str "@" in
    let* maskedLocalPart := Obscure.obscure localPart 2 2 "*" in
    Ok (maskedLocalPart ++ "@" ++ fst (Spec.splitFirst rest "@")).
Proof.
  intros H. unfold obscure_email, Obscure.email. simpl.
  rewrite H. simpl negb. cbv iota.
  rewrite (split_at_first _ _ H).
  destruct (Spec.splitFirst str "@") as [localPart rest]. simpl fst. simpl snd.
  destruct (split_head rest "@") as [segs ->]. reflexivity.
Qed.

(** Without an '@' the whole string is masked with [obscure(str, 2, 2)]. *)
Lemma email_without_at (str : string) :
  Js.includes str "@" = false ->
  obscure_email str = Obscure.obscure str 2 2 "*".
Proof.
  intros H. unfold obscure_email, Obscure.email. simpl. now rewrite H.
Qed.

(** With at most one '@', [email()] is what the specification describes. *)
Lemma email_refines_spec (str : string) :
  Js.includes (snd (Spec.splitFirst str "@")) "@" = false ->
  obscure_email str = Spec.email str.
Proof.
  intros H. unfold Spec.email. destruct (Js.includes str "@") eqn:E.
  - rewrite (email_with_at _ E).
    destruct (Spec.splitFirst str "@") as [localPart rest]. simpl in H.
    destruct (split_head rest "@") as [segs Hs].
    rewrite (split_without_separator _ _ H) in Hs.
    injection Hs as <- _. reflexivity.
  - now apply email_without_at.
Qed.

(** C4: with a second '@' the remainder after the first '@' is not kept
    whole: [obscure.email('ab@c@d')] is ['ab@c'], where masking the local
    part and keeping everything after the first '@' gives ['ab@c@d']. *)
Theorem email_drops_after_second_at :
  obscure_email "ab@c@d" = Ok "ab@c"
  /\ Spec.email "ab@c@d" = Ok "ab@c@d"
  /\ obscure_email "example@gmail.com@x" = Ok "ex***le@gmail.com".
Proof. repeat split. Qed.

(** *** phone *)

Lemma get_some (i : nat) (s : string) :
  i < String.length s -> exists c, String.get i s = Some c.
Proof.
  revert i; induction s as [|d s IH]; simpl; intros i H; [lia |].
  destruct i as [|i]; [now exists d | apply IH; lia].
Qed.

Lemma reformat_accumulates (chars obscuredPhone : string) (i : nat) (acc : string) :
  Obscure.reformat chars obscuredPhone i acc
  = acc ++ Obscure.reformat chars obscuredPhone i EmptyString.
Proof.
  revert i acc; induction chars as [|c chars IH]; simpl; intros i acc.
  - now rewrite JsFacts.app_empty_r.
  - destruct (Obscure.isDigit c || (c =? "+")%char).
    + rewrite IH, (IH _ (Js.charAtOrUndefined obscuredPhone i)).
      now rewrite JsFacts.app_assoc.
    + rewrite IH, (IH _ (String c EmptyString)).
      now rewrite JsFacts.app_assoc.
Qed.

(** The loop of [phone()]: as long as the masked string has a character for
    every digit or '+' still to come, the output keeps the length and every
    other character, and puts the masked characters in order. *)
Lemma reformat_layout (chars obscuredPhone : string) (k : nat) :
  k + String.length (Obscure.normalizePhone chars) <= String.length obscuredPhone ->
  let out := Obscure.reformat chars obscuredPhone k EmptyString in
  String.length out = String.length chars
  /\ forall i c, String.get i chars = Some c ->
       if Obscure.isPhoneChar c
       then String.get i out
            = String.get (k + String.length (Obscure.normalizePhone (Js.take i chars)))
                obscuredPhone
            /\ String.get i out <> None
       else String.get i out = Some c.
Proof.
  revert k; induction chars as [|ch chars IH]; intros k Hk out.
  - split; [reflexivity | intros i c H; destruct i; discriminate].
  - subst out. simpl Obscure.reformat.
    simpl Obscure.normalizePhone in Hk. unfold Obscure.isPhoneChar in *.
    destruct (Obscure.isDigit ch || (ch =? "+")%char) eqn:E.
    + simpl String.length in Hk.
      destruct (get_some k obscuredPhone ltac:(lia)) as [d Hd].
      unfold Js.charAtOrUndefined. rewrite Hd. simpl append.
      rewrite reformat_accumulates. simpl append.
      destruct (IH (S k) ltac:(lia)) as [Hlen Hpos].
      split; [simpl; now rewrite Hlen |].
      intros [|i] c Hc; simpl in Hc.
      * injection Hc as <-. rewrite E. simpl.
        rewrite Nat.add_0_r, Hd. split; [reflexivity | discriminate].
      * specialize (Hpos i c Hc). simpl String.get at 1.
        destruct (Obscure.isDigit c || (c =? "+")%char) eqn:Ec.
        -- simpl Js.take. simpl Obscure.normalizePhone.
           unfold Obscure.isPhoneChar. rewrite E. simpl String.length.
           simpl String.get at 2. simpl String.get at 3.
           replace (k + S (String.length (Obscure.normalizePhone (Js.take i chars))))
             with (S k + String.length (Obscure.normalizePhone (Js.take i chars)))
             by lia.
           exact Hpos.
        -- exact Hpos.
    + rewrite reformat_accumulates. simpl append.
      destruct (IH k Hk) as [Hlen Hpos].
      split; [simpl; now rewrite Hlen |].
      intros [|i] c Hc; simpl in Hc.
      * injection Hc as <-. rewrite E. reflexivity.
      * specialize (Hpos i c Hc). simpl String.get at 1.
        destruct (Obscure.isDigit c || (c =? "+")%char) eqn:Ec.
        -- simpl Js.take. simpl Obscure.normalizePhone.
           unfold Obscure.isPhoneChar. rewrite E.
           simpl String.get at 2. simpl String.get at 3.
           exact Hpos.
        -- exact Hpos.
Qed.

(** With a one-character mask, [obscure(str, 2, 2)] succeeds and keeps the
    length. *)
Lemma obscure_2_2_length (str mask : string) :
  String.length mask = 1 ->
  exists out,
    Obscure.obscure str 2 2 mask = Ok out /\ String.length out = String.length str.
Proof.
  intros Hm.
  destruct (Z.le_gt_cases (Z.of_nat (String.length str)) (2 + 2)) as [H|H].
  - exists str. split; [| reflexivity].
    apply (obscure_short_is_identity_general str 2 2 mask); lia.
  - eexists. split; [apply obscure_masks_middle; lia |].
    unfold Spec.masked. autorewrite with js_length.
    change (Z.to_nat 2) with 2. lia.
Qed.

(** C7: when the normalized string matches the phone pattern, [obscure.phone]
    returns a string as long as its input, in which a character that is
    neither a digit nor '+' stays where it was, and the i-th digit-or-'+'
    character is replaced by the i-th character of
    [obscure(normalized, 2, 2)]. *)
Theorem phone_keeps_layout (str : string) :
  Obscure.phoneRegex_test (Obscure.normalizePhone str) = true ->
  exists masked out,
    Obscure.obscure (Obscure.normalizePhone str) 2 2 "*" = Ok masked
    /\ obscure_phone str = Ok out
    /\ String.length out = String.length str
    /\ forall i c, String.get i str = Some c ->
         if Obscure.isPhoneChar c
         then String.get i out
              = String.get (String.length (Obscure.normalizePhone (Js.take i str)))
                  masked
              /\ String.get i out <> None
         else String.get i out = Some c.
Proof.
  intros Hvalid.
  destruct (obscure_2_2_length (Obscure.normalizePhone str) "*" eq_refl)
    as [masked [Hmasked Hlen]].
  exists masked, (Obscure.reformat str masked 0 EmptyString).
  split; [exact Hmasked |].
  split.
  - unfold obscure_phone, Obscure.phone. simpl Obscure._string. simpl Obscure._mask.
    rewrite Hvalid. simpl negb. cbv iota. rewrite Hmasked. reflexivity.
  - apply (reformat_layout str masked 0). rewrite Hlen. simpl. lia.
Qed.

(** When the normalized string does not match, the original string is
    masked as it is. *)
Lemma phone_invalid_falls_back (str : string) :
  Obscure.phoneRegex_test (Obscure.normalizePhone str) = false ->
  obscure_phone str = Obscure.obscure str 2 2 "*".
Proof.
  intros H. unfold obscure_phone, Obscure.phone. simpl. now rewrite H.
Qed.

Example phone_readme : obscure_phone "+1234567890" = Ok "+1*******90".
Proof. reflexivity. Qed.

Example phone_formatted : obscure_phone "+1 (234) 567-890" = Ok "+1 (***) ***-*90".
Proof. reflexivity. Qed.

Example email_readme : obscure_email "example@gmail.com" = Ok "ex***le@gmail.com".
Proof. reflexivity. Qed.

(** ['+1 (234) 567-890'] becomes ['+1 (***) ***-*90']. *)
Lemma phone_keeps_layout_witness :
  exists masked out,
    Obscure.obscure (Obscure.normalizePhone "+1 (234) 567-890") 2 2 "*" = Ok masked
    /\ obscure_phone "+1 (234) 567-890" = Ok out
    /\ String.length out = String.length "+1 (234) 567-890"
    /\ forall i c, String.get i "+1 (234) 567-890" = Some c ->
         if Obscure.isPhoneChar c
         then String.get i out
              = String.get
                  (String.length
                     (Obscure.normalizePhone (Js.take i "+1 (234) 567-890")))
                  masked
              /\ String.get i out <> None
         else String.get i out = Some c.
Proof.
  apply (phone_keeps_layout "+1 (234) 567-890"). reflexivity.
Defined.

End ObscureFacts.

(** ** uuidGenerator *)

Module UuidGeneratorFacts.

Import UuidGenerator.

Lemma drop_length (s : string) : Js.drop (String.length s) s = EmptyString.
Proof. induction s as [|c s IH]; simpl; trivial. Qed.

Lemma endsWith_empty (s : string) : Js.endsWith s EmptyString = true.
Proof.
  unfold Js.endsWith. simpl. rewrite Nat.sub_0_r, drop_length. reflexivity.
Qed.

(** The two trimming steps with an empty separator: [result.endsWith('')]
    holds and [result.slice(0, -0)] is empty. *)
Lemma trim_with_empty_separator (result0 : string) :
  (let result :=
     if Js.endsWith result0 EmptyString
     then Js.slice result0 0 (- Z.of_nat (String.length EmptyString))
     else result0 in
   if Js.startsWith result EmptyString
   then Js.sliceFrom result (Z.of_nat (String.length EmptyString))
   else result) = EmptyString.
Proof.
  cbv zeta. rewrite endsWith_empty. simpl Z.of_nat. change (- 0)%Z with 0%Z.
  rewrite JsFacts.slice_0 by lia. reflexivity.
Qed.

Lemma endsWith_app (a sep : string) : Js.endsWith (a ++ sep) sep = true.
Proof.
  unfold Js.endsWith. rewrite JsFacts.length_app.
  replace (String.length a + String.length sep - String.length sep)
    with (String.length a) by lia.
  rewrite JsFacts.drop_app_length, String.eqb_refl.
  rewrite andb_true_r. apply Nat.leb_le. lia.
Qed.

Lemma slice_off_separator (a sep : string) :
  sep <> EmptyString ->
  Js.slice (a ++ sep) 0 (- Z.of_nat (String.length sep)) = a.
Proof.
  intros Hsep. unfold Js.slice, Js.relativeIndex.
  assert (0 < String.length sep) by (destruct sep; [congruence | simpl; lia]).
  replace (0 <? 0)%Z with false by reflexivity.
  destruct (- Z.of_nat (String.length sep) <? 0)%Z eqn:E;
    [| apply Z.ltb_ge in E; lia].
  rewrite JsFacts.length_app.
  replace (Z.to_nat (Z.min 0 (Z.of_nat (String.length a + String.length sep))))
    with 0 by lia.
  rewrite JsFacts.drop_0.
  match goal with |- Js.take ?n _ = _ =>
    replace n with (String.length a) by lia end.
  apply JsFacts.take_app_length.
Qed.

Lemma truthy_cases (s : string) : s = EmptyString \/ Js.truthy s = true.
Proof. destruct s; [now left | now right]. Qed.

Lemma startsWith_nothing (sep : string) :
  sep <> EmptyString -> Js.startsWith EmptyString sep = false.
Proof. destruct sep; [congruence | reflexivity]. Qed.

Lemma endsWith_nothing (sep : string) :
  sep <> EmptyString -> Js.endsWith EmptyString sep = false.
Proof. destruct sep; [congruence | reflexivity]. Qed.

Ltac normalize_app := rewrite ?JsFacts.app_assoc, ?JsFacts.app_empty_r.

(** With a non-empty separator the function returns the separated join of
    the non-empty components, provided that join neither starts nor ends
    with the separator (the trimming steps would cut it otherwise). *)
Lemma uuidGenerator_joins_components
    (uuid : string) (uuid_v5 : string -> string -> string)
    (name namespace : string) (options : UUIDGeneratorOptions) :
  let sep := orEmpty (separator options) in
  let joined :=
    Spec.assemble (orEmpty (prefix options)) (uuid_v5 name namespace) uuid
      (orEmpty (suffix options)) sep in
  sep <> EmptyString ->
  Js.startsWith joined sep = false ->
  Js.endsWith joined sep = false ->
  uuidGenerator uuid uuid_v5 name namespace options = joined.
Proof.
  unfold uuidGenerator. cbv zeta.
  generalize (orEmpty (separator options)) as sep.
  generalize (orEmpty (suffix options)) as s.
  generalize (orEmpty (prefix options)) as p.
  generalize (uuid_v5 name namespace) as h.
  intros h p s sep Hsep. unfold Spec.assemble, Js.join. simpl filter.
  destruct (truthy_cases p) as [-> | Hp]; [simpl Js.truthy | rewrite Hp];
  (destruct (truthy_cases h) as [-> | Hh]; [simpl Js.truthy | rewrite Hh]);
  (destruct (truthy_cases uuid) as [-> | Hi]; [simpl Js.truthy | rewrite Hi]);
  (destruct (truthy_cases s) as [-> | Hs]; [simpl Js.truthy | rewrite Hs]);
  simpl String.concat; simpl append.
  all: intros Hstart Hend; cbv iota; normalize_app.
  all: first
    [ rewrite endsWith_nothing, startsWith_nothing by assumption; reflexivity
    | rewrite Hend, Hstart; reflexivity
    | match type of Hend with
      | Js.endsWith ?J ?sp = false =>
          match goal with
          | |- context [Js.endsWith ?R sp] =>
              replace R with (J ++ sp) by (normalize_app; reflexivity)
          end
      end;
      rewrite endsWith_app, slice_off_separator by assumption;
      rewrite Hstart; reflexivity ].
Qed.

(** The README call: prefix ['user'], separator ['-']. *)
Example uuidGenerator_readme :
  uuidGenerator "123e4567-e89b-42d3-a456-426614174000"
    (fun _ _ => "6ba7b810-9dad-51d1-80b4-00c04fd430c8") "name" "namespace"
    {| prefix := Some "user"; suffix := None; separator := Some "-" |}
  = "user-6ba7b810-9dad-51d1-80b4-00c04fd430c8-123e4567-e89b-42d3-a456-426614174000".
Proof. reflexivity. Qed.

(** A prefix that starts with the separator loses it to the second
    trimming step. *)
Example uuidGenerator_trims_prefix :
  uuidGenerator "ID" (fun _ _ => "HASH") "name" "namespace"
    {| prefix := Some "-u"; suffix := None; separator := Some "-" |}
  = "u-HASH-ID".
Proof. reflexivity. Qed.

(** What the specification's assembly gives with the default options. *)
Lemma assemble_default (hash id : string) :
  Spec.assemble EmptyString hash id EmptyString EmptyString = hash ++ id.
Proof.
  unfold Spec.assemble, Js.join. destruct hash, id; simpl; trivial.
  now rewrite JsFacts.app_empty_r.
Qed.

(** C1: with the default separator (absent, or given as the empty string)
    the function returns the empty string whatever the prefix, the hash,
    the random id and the suffix are; it does not return hash followed by
    id, and a prefix does not appear in the result. *)
Theorem uuidGenerator_empty_separator_returns_empty
    (uuid : string) (uuid_v5 : string -> string -> string)
    (name namespace : string) (prefix suffix : option string) :
  uuidGenerator uuid uuid_v5 name namespace
    {| prefix := prefix; suffix := suffix; separator := None |} = EmptyString
  /\ uuidGenerator uuid uuid_v5 name namespace
       {| prefix := prefix; suffix := suffix; separator := Some EmptyString |}
     = EmptyString.
Proof.
  split; unfold uuidGenerator; simpl orEmpty; apply trim_with_empty_separator.
Qed.

End UuidGeneratorFacts.

(** ** stringifyParams *)

Module StringifyParamsFacts.

Import StringifyParams.

(** C3, as stated, fails: the call of the specification's example,
    [{a: [1, 2]}] in comma mode, does not return ["a=1%2C2"]. *)
Lemma stringifyParams_comma_not_encoded :
  stringifyParams (Mapping [("a", Array [Number 1; Number 2])])
    {| separator := None; arrayType := Some comma;
       serializeObjects := None; returnType := Some string_ |}
  <> Ok (AsString "a=1%2C2").
Proof. vm_compute. discriminate. Qed.

(** C3 (as amended): [stringifyParams({a:[1,2]}, {arrayType:'comma',
    returnType:'string'})] returns ["a=1,2"]: in comma mode each element is
    percent-encoded on its own and the joining comma is literal. *)
Theorem stringifyParams_comma_literal :
  stringifyParams (Mapping [("a", Array [Number 1; Number 2])])
    {| separator := None; arrayType := Some comma;
       serializeObjects := None; returnType := Some string_ |}
  = Ok (AsString "a=1,2")
  /\ forall (key : string) (values : list element) (objects : bool),
       entryPairs comma objects (key, Array values)
       = [(encodeURIComponent key,
           Js.join
             (map (fun v => encodeURIComponent (normalizeValue v objects)) values)
             ",")].
Proof. split; [reflexivity | intros; reflexivity]. Qed.

(** A comma inside an element is encoded, the joining one is not. *)
Example stringifyParams_comma_inside_element :
  stringifyParams (Mapping [("a", Array [Str "x,y"; Number 2])])
    {| separator := None; arrayType := Some comma;
       serializeObjects := None; returnType := Some string_ |}
  = Ok (AsString "a=x%2Cy,2").
Proof. reflexivity. Qed.

Example stringifyParams_none_mode :
  stringifyParams
    (Mapping [("a", Single (Number 1)); ("b", Array [Number 1; Number 2])])
    {| separator := None; arrayType := Some none;
       serializeObjects := None; returnType := Some string_ |}
  = Ok (AsString "a=1&b=1&b=2").
Proof. reflexivity. Qed.

(** [validateParams] runs first: what is not a mapping is refused before
    the separator is looked at. *)
Lemma stringifyParams_invalid_params (options : StringifyParamsOptions) :
  stringifyParams NullParams options = Throw InvalidParams
  /\ (forall values, stringifyParams (ArrayParams values) options = Throw InvalidParams)
  /\ (forall value, stringifyParams (NotAnObject value) options = Throw InvalidParams).
Proof. repeat split. Qed.

(** C8: for a mapping [params], [stringifyParams] raises [InvalidSeparator]
    exactly when [returnType] is ['string'] and the separator (['&'] when
    absent) is empty or contains '='; it raises nothing else; and with
    [returnType] ['URLSearchParams'] it returns the pair list whatever the
    separator is. *)
Theorem stringifyParams_invalid_separator
    (entries : list (string * paramValue)) (options : StringifyParamsOptions) :
  let sep := match separator options with Some s => s | None => "&" end in
  (stringifyParams (Mapping entries) options = Throw InvalidSeparator
   <-> returnType options = Some string_
       /\ (sep = EmptyString \/ Js.includes sep "=" = true))
  /\ (forall e, stringifyParams (Mapping entries) options = Throw e ->
               e = InvalidSeparator)
  /\ (returnType options = Some URLSearchParams ->
      exists pairs,
        stringifyParams (Mapping entries) options = Ok (AsURLSearchParams pairs)).
Proof.
  intros sep. unfold stringifyParams. simpl bind. fold sep.
  destruct (returnType options) as [[|]|] eqn:Ert.
  - assert (Hlen : (String.length sep =? 0)%nat = true <-> sep = EmptyString).
    { rewrite Nat.eqb_eq. destruct sep; simpl; split; congruence. }
    destruct ((String.length sep =? 0)%nat || Js.includes sep "=") eqn:E.
    + apply orb_true_iff in E. split; [split | split].
      * intros _. split; [reflexivity | tauto].
      * reflexivity.
      * intros e H. congruence.
      * discriminate.
    + apply orb_false_iff in E. destruct E as [E1 E2]. split; [split | split].
      * discriminate.
      * intros [_ [H | H]]; [apply Hlen in H |]; congruence.
      * discriminate.
      * discriminate.
  - split; [split | split].
    + discriminate.
    + intros [H _]; discriminate.
    + discriminate.
    + intros _. eexists. reflexivity.
  - split; [split | split].
    + discriminate.
    + intros [H _]; discriminate.
    + discriminate.
    + discriminate.
Qed.

(** [stringifyParams({}, {returnType:'string', separator:'='})] throws. *)
Example stringifyParams_equals_separator :
  stringifyParams (Mapping [])
    {| separator := Some "="; arrayType := None;
       serializeObjects := None; returnType := Some string_ |}
  = Throw InvalidSeparator.
Proof. reflexivity. Qed.

End StringifyParamsFacts.

(** ** generateUniqueId *)

Module UniqueIdFacts.

Import UniqueId.

Lemma digit36_value_digit36 (d : N) : (d < 36)%N -> digit36_value (digit36 d) = d.
Proof.
  intros H. unfold digit36_value, digit36.
  destruct (d <? 10)%N eqn:E.
  - apply N.ltb_lt in E. rewrite N_ascii_embedding by lia.
    destruct (48 + d <? 58)%N eqn:E'; [lia | apply N.ltb_ge in E'; lia].
  - apply N.ltb_ge in E. rewrite N_ascii_embedding by lia.
    destruct (87 + d <? 58)%N eqn:E'; [apply N.ltb_lt in E'; lia | lia].
Qed.

Lemma parse36_app (a : N) (s1 s2 : string) :
  parse36 a (s1 ++ s2) = parse36 (parse36 a s1) s2.
Proof. revert a; induction s1 as [|c s1 IH]; simpl; intros a; [reflexivity | apply IH]. Qed.

(** The digit loop, given enough fuel, puts in front of [acc] a non-empty
    numeral whose value is [n]. *)
Lemma toString36_digits_value (fuel : nat) :
  forall (n : N) (acc : string),
    0 < fuel -> (n < 2 ^ N.of_nat fuel)%N ->
    exists digits,
      toString36_digits fuel n acc = digits ++ acc
      /\ 0 < String.length digits
      /\ forall a, parse36 a digits = (a * 36 ^ N.of_nat (String.length digits) + n)%N.
Proof.
  induction fuel as [|fuel IH]; intros n acc Hfuel Hn; [lia |].
  simpl toString36_digits.
  assert (Hmod : (n mod 36 < 36)%N) by (apply N.mod_lt; lia).
  destruct (n / 36 =? 0)%N eqn:E.
  - apply N.eqb_eq in E.
    exists (String (digit36 (n mod 36)) EmptyString). split; [reflexivity |].
    split; [simpl; lia |]. intros a. cbn [parse36 String.length].
    rewrite digit36_value_digit36 by assumption.
    pose proof (N.div_mod n 36 ltac:(lia)) as Hdm. rewrite E in Hdm.
    change (36 ^ N.of_nat 1)%N with 36%N. lia.
  - apply N.eqb_neq in E.
    assert (Hge : (36 <= n)%N).
    { destruct (N.lt_ge_cases n 36) as [Hlt|]; [| assumption].
      rewrite N.div_small in E by assumption. congruence. }
    assert (Hfuel' : 0 < fuel).
    { destruct fuel; [| lia]. simpl in Hn. lia. }
    assert (Hdiv : (n / 36 < 2 ^ N.of_nat fuel)%N).
    { apply N.Div0.div_lt_upper_bound.
      replace (N.of_nat (S fuel)) with (N.succ (N.of_nat fuel)) in Hn by lia.
      rewrite N.pow_succ_r' in Hn. lia. }
    destruct (IH (n / 36)%N (String (digit36 (n mod 36)) acc) Hfuel' Hdiv)
      as [digits [Heq [Hlen Hval]]].
    exists (digits ++ String (digit36 (n mod 36)) EmptyString).
    split; [rewrite Heq, JsFacts.app_assoc; reflexivity |].
    split; [rewrite JsFacts.length_app; simpl; lia |].
    intros a. rewrite parse36_app, Hval. cbn [parse36].
    rewrite digit36_value_digit36 by assumption.
    rewrite JsFacts.length_app. cbn [String.length].
    replace (N.of_nat (String.length digits + 1))
      with (N.succ (N.of_nat (String.length digits))) by lia.
    rewrite N.pow_succ_r'.
    pose proof (N.div_mod n 36 ltac:(lia)) as Hdm. nia.
Qed.

Lemma toString36_enough_fuel (n : N) : (n < 2 ^ N.of_nat (S (N.to_nat (N.log2 n))))%N.
Proof.
  replace (N.of_nat (S (N.to_nat (N.log2 n)))) with (N.succ (N.log2 n)) by lia.
  destruct n as [|p]; [reflexivity |].
  apply N.log2_spec. lia.
Qed.

(** [toString36] prints the number it is given: reading the numeral back
    gives the number. *)
Lemma parse36_toString36 (n : N) : parse36 0 (toString36 n) = n.
Proof.
  unfold toString36.
  destruct (toString36_digits_value (S (N.to_nat (N.log2 n))) n EmptyString
              ltac:(lia) (toString36_enough_fuel n))
    as [digits [Heq [_ Hval]]].
  rewrite Heq, JsFacts.app_empty_r, Hval. lia.
Qed.

(** A numeral has at least one digit. *)
Lemma toString36_not_empty (n : N) : 0 < String.length (toString36 n).
Proof.
  unfold toString36.
  destruct (toString36_digits_value (S (N.to_nat (N.log2 n))) n EmptyString
              ltac:(lia) (toString36_enough_fuel n))
    as [digits [Heq [Hlen _]]].
  rewrite Heq, JsFacts.app_empty_r. exact Hlen.
Qed.

(** [b.toString(36).padStart(2, '0')] is the two base-36 digits of [b]. *)
Lemma padStart_toString36_byte (b : Byte.byte) :
  Js.padStart (toString36 (Byte.to_N b)) 2 "0" = Spec.encodeByte b.
Proof. destruct b; reflexivity. Qed.

Lemma length_concat_encodeByte (bytes : list Byte.byte) :
  String.length (String.concat EmptyString (map Spec.encodeByte bytes))
  = 2 * List.length bytes.
Proof.
  induction bytes as [|b bytes IH]; [reflexivity |].
  simpl map. simpl String.concat.
  destruct (map Spec.encodeByte bytes) as [|e es] eqn:E.
  - destruct bytes; [reflexivity | discriminate].
  - simpl in *. rewrite IH. lia.
Qed.

Lemma length_filled (entropy : nat -> Byte.byte) (n : nat) :
  List.length (filled entropy n) = n.
Proof. unfold filled. now rewrite length_map, length_seq. Qed.

(** Any list of bytes is what some entropy source delivers. *)
Lemma filled_any (bytes : list Byte.byte) :
  filled (fun i => nth i bytes Byte.x00) (List.length bytes) = bytes.
Proof.
  unfold filled.
  apply nth_ext with (d := Byte.x00) (d' := Byte.x00).
  - now rewrite length_map, length_seq.
  - intros i Hi. rewrite length_map, length_seq in Hi.
    rewrite (nth_indep _ _ (nth 0 bytes Byte.x00)) by (now rewrite length_map, length_seq).
    change (nth 0 bytes Byte.x00) with ((fun i => nth i bytes Byte.x00) 0).
    rewrite map_nth, seq_nth by assumption. reflexivity.
Qed.

(** The two outcomes of a request for [n] random bytes. *)
Lemma getRandomValues_within_quota (entropy : nat -> Byte.byte) (n : nat) :
  (Z.of_nat n <= 65536)%Z -> getRandomValues entropy n = Ok (filled entropy n).
Proof.
  intros H. unfold getRandomValues.
  destruct (65536 <? Z.of_nat n)%Z eqn:E; [apply Z.ltb_lt in E; lia | reflexivity].
Qed.

Lemma getRandomValues_above_quota (entropy : nat -> Byte.byte) (n : nat) :
  (65536 < Z.of_nat n)%Z -> getRandomValues entropy n = Throw (QuotaExceeded n).
Proof.
  intros H. unfold getRandomValues.
  destruct (65536 <? Z.of_nat n)%Z eqn:E; [reflexivity | apply Z.ltb_ge in E; lia].
Qed.



(** [generateUniqueId(8)] with the clock at 36^8 ms (in 2059), the first
    timestamp of nine digits, and one millisecond earlier. *)
Example generateUniqueId_8_in_2059 (entropy : nat -> Byte.byte) :
  toString36 2821109907456 = "100000000"
  /\ generateUniqueId 2821109907456 entropy (Some 8%Z) None None
     = Throw (InvalidLength 9)
  /\ exists id, generateUniqueId 2821109907455 entropy (Some 8%Z) None None = Ok id.
Proof. split; [reflexivity | split; [reflexivity |]]. eexists. reflexivity. Qed.




Example generateUniqueId_example :
  generateUniqueId 1762150000000
    (fun i => nth i [Byte.xff; Byte.x05; Byte.x41; Byte.x00; Byte.x24;
                     Byte.x41; Byte.x41; Byte.x41; Byte.x41; Byte.x41] Byte.x00)
    (Some 10%Z) (Some "p") (Some "s")
  = Ok "p_mhiqm1z473051t0010_s".
Proof. reflexivity. Qed.

End UniqueIdFacts.

(** * Further properties of the code *)

(** ** Obscure: errors, positions, email and phone *)

Module ObscureMore.

Lemma get_app_l (a b : string) (i : nat) :
  i < String.length a -> String.get i (a ++ b) = String.get i a.
Proof.
  revert i; induction a as [|c a IH]; simpl; intros i H; [lia |].
  destruct i; [reflexivity | apply IH; lia].
Qed.

Lemma get_app_r (a b : string) (i : nat) :
  String.get (String.length a + i) (a ++ b) = String.get i b.
Proof. induction a as [|c a IH]; simpl; [reflexivity | exact IH]. Qed.

Lemma get_take (n i : nat) (s : string) :
  i < n -> String.get i (Js.take n s) = String.get i s.
Proof.
  revert i s; induction n as [|n IH]; intros i s H; [lia |].
  destruct s as [|c s]; simpl; [reflexivity |].
  destruct i; [reflexivity | apply IH; lia].
Qed.

Lemma get_drop (n i : nat) (s : string) :
  String.get i (Js.drop n s) = String.get (n + i) s.
Proof.
  revert s; induction n as [|n IH]; intros s; [now rewrite JsFacts.drop_0 |].
  destruct s as [|c s]; simpl; [now destruct i | apply IH].
Qed.

Lemma get_repeat (c : ascii) (k i : nat) :
  i < k -> String.get i (Js.repeat (String c EmptyString) k) = Some c.
Proof.
  revert i; induction k as [|k IH]; intros i H; [lia |].
  simpl. destruct i; [reflexivity | apply IH; lia].
Qed.

(** X1: [obscure] throws exactly when [start] or [end] is negative, the
    error is then the range error, and in every other case it returns a
    string. *)
Theorem obscure_throws_iff_negative (str : string) (start end_ : Z) (mask : string) :
  (Obscure.obscure str start end_ mask = Throw InvalidRange
   <-> (start < 0 \/ end_ < 0)%Z)
  /\ (forall e, Obscure.obscure str start end_ mask = Throw e -> e = InvalidRange)
  /\ ((exists out, Obscure.obscure str start end_ mask = Ok out)
      <-> (0 <= start /\ 0 <= end_)%Z).
Proof.
  unfold Obscure.obscure.
  destruct (start <? 0)%Z eqn:E1; destruct (end_ <? 0)%Z eqn:E2; simpl orb; cbv iota;
    try apply Z.ltb_lt in E1; try apply Z.ltb_ge in E1;
    try apply Z.ltb_lt in E2; try apply Z.ltb_ge in E2.
  1-3: split; [split; [lia | reflexivity] | split; [congruence |]];
       split; [intros [out H]; discriminate | lia].
  cbv zeta.
  destruct (Z.of_nat (String.length str) <=? start + end_)%Z.
  - split; [split; [discriminate | lia] | split; [discriminate |]].
    split; [lia | intros _; eexists; reflexivity].
  - split; [split; [discriminate | lia] | split; [discriminate |]].
    split; [lia | intros _; eexists; reflexivity].
Qed.

(** X2: with a one-character mask and [end > 0], [obscure] returns a string
    as long as its input, whatever [start >= 0] is. *)
Theorem obscure_keeps_length (str : string) (start end_ : nat) (c : ascii) :
  0 < end_ ->
  exists out,
    Obscure.obscure str (Z.of_nat start) (Z.of_nat end_) (String c EmptyString) = Ok out
    /\ String.length out = String.length str.
Proof.
  intros He.
  destruct (Z.le_gt_cases (Z.of_nat (String.length str))
              (Z.of_nat start + Z.of_nat end_)) as [H|H].
  - exists str. split; [| reflexivity].
    apply ObscureFacts.obscure_short_is_identity_general; lia.
  - eexists. split; [apply ObscureFacts.obscure_masks_middle; lia |].
    unfold Spec.masked. autorewrite with js_length. rewrite !Nat2Z.id.
    simpl String.length. lia.
Qed.

Lemma obscure_keeps_length_witness :
  exists out,
    Obscure.obscure "secret" (Z.of_nat 1) (Z.of_nat 2) "#" = Ok out
    /\ String.length out = String.length "secret".
Proof. apply (obscure_keeps_length "secret" 1 2 "#"%char). lia. Defined.

(** The three regions of the specification's masked string, for a
    one-character mask. *)
Lemma masked_positions (str : string) (start end_ : nat) (c : ascii) (i : nat) :
  0 < end_ -> start + end_ < String.length str ->
  let out := Spec.masked str start end_ (String c EmptyString) in
  (i < start -> String.get i out = String.get i str)
  /\ (start <= i < String.length str - end_ -> String.get i out = Some c)
  /\ (String.length str - end_ <= i -> String.get i out = String.get i str).
Proof.
  intros He Hlen. unfold Spec.masked.
  set (k := String.length str - start - end_).
  assert (Htake : String.length (Js.take start str) = start)
    by (rewrite JsFacts.length_take; lia).
  assert (Hrep : String.length (Js.repeat (String c EmptyString) k) = k)
    by (rewrite JsFacts.length_repeat; simpl; lia).
  split; [| split].
  - intros Hi. rewrite get_app_l by lia. apply get_take; lia.
  - intros Hi. replace i with (String.length (Js.take start str) + (i - start)) by lia.
    rewrite get_app_r, get_app_l by lia. apply get_repeat. lia.
  - intros Hi.
    replace i with (String.length (Js.take start str)
                    + (String.length (Js.repeat (String c EmptyString) k)
                       + (i - (String.length str - end_)))) at 1 by lia.
    rewrite !get_app_r, get_drop. f_equal. lia.
Qed.

(** X3: where [start + end < len(str)] and [end > 0], the result of
    [obscure] with a one-character mask shows the input at the first
    [start] and the last [end] positions and the mask character at every
    position in between. *)
Theorem obscure_positions (str : string) (start end_ : nat) (c : ascii) :
  0 < end_ -> start + end_ < String.length str ->
  exists out,
    Obscure.obscure str (Z.of_nat start) (Z.of_nat end_) (String c EmptyString) = Ok out
    /\ forall i,
         (i < start -> String.get i out = String.get i str)
         /\ (start <= i < String.length str - end_ -> String.get i out = Some c)
         /\ (String.length str - end_ <= i -> String.get i out = String.get i str).
Proof.
  intros He Hlen. eexists. split; [apply ObscureFacts.obscure_masks_middle; lia |].
  rewrite !Nat2Z.id. intros i. now apply masked_positions.
Qed.

Lemma obscure_positions_witness :
  exists out,
    Obscure.obscure "secret" (Z.of_nat 1) (Z.of_nat 2) "#" = Ok out
    /\ forall i,
         (i < 1 -> String.get i out = String.get i "secret")
         /\ (1 <= i < String.length "secret" - 2 -> String.get i out = Some "#"%char)
         /\ (String.length "secret" - 2 <= i -> String.get i out = String.get i "secret").
Proof. apply (obscure_positions "secret" 1 2 "#"%char); simpl; lia. Defined.

(** *** email *)

Lemma includes_app (a b : string) (c : ascii) :
  Js.includes (a ++ b) c = Js.includes a c || Js.includes b c.
Proof.
  induction a as [|d a IH]; simpl; [reflexivity |].
  rewrite IH. now rewrite orb_assoc.
Qed.

Lemma splitFirst_parts (before after : string) (c : ascii) :
  Js.includes before c = false ->
  Spec.splitFirst (before ++ String c after) c = (before, after).
Proof.
  induction before as [|d before IH]; simpl; intros H.
  - now rewrite Ascii.eqb_refl.
  - destruct (d =? c)%char; simpl in H; [discriminate |].
    now rewrite (IH H).
Qed.

(** [email()] on a string with one '@', in terms of its two parts. *)
Lemma email_of_parts (localPart domain : string) :
  Js.includes localPart "@" = false ->
  Js.includes domain "@" = false ->
  obscure_email (localPart ++ "@" ++ domain)
  = let* maskedLocalPart := Obscure.obscure localPart 2 2 "*" in
    Ok (maskedLocalPart ++ "@" ++ domain).
Proof.
  intros Hl Hd.
  rewrite ObscureFacts.email_refines_spec.
  - unfold Spec.email. rewrite includes_app. simpl Js.includes.
    rewrite orb_true_r. change ("@" ++ domain) with (String "@" domain).
    now rewrite (splitFirst_parts _ _ _ Hl).
  - change ("@" ++ domain) with (String "@" domain).
    now rewrite (splitFirst_parts _ _ _ Hl).
Qed.

(** X4: for a local part and a domain without '@', [obscure.email] of
    [localPart@domain] is the masked local part, '@' and the domain
    unchanged, and it is as long as the input. *)
Theorem email_keeps_domain (localPart domain : string) :
  Js.includes localPart "@" = false ->
  Js.includes domain "@" = false ->
  exists maskedLocalPart,
    Obscure.obscure localPart 2 2 "*" = Ok maskedLocalPart
    /\ String.length maskedLocalPart = String.length localPart
    /\ obscure_email (localPart ++ "@" ++ domain)
       = Ok (maskedLocalPart ++ "@" ++ domain)
    /\ String.length (maskedLocalPart ++ "@" ++ domain)
       = String.length (localPart ++ "@" ++ domain).
Proof.
  intros Hl Hd.
  destruct (ObscureFacts.obscure_2_2_length localPart "*" eq_refl) as [m [Hm Hlen]].
  exists m. split; [exact Hm |]. split; [exact Hlen |]. split.
  - rewrite (email_of_parts _ _ Hl Hd), Hm. reflexivity.
  - autorewrite with js_length. lia.
Qed.

Lemma email_keeps_domain_witness :
  exists maskedLocalPart,
    Obscure.obscure "example" 2 2 "*" = Ok maskedLocalPart
    /\ String.length maskedLocalPart = String.length "example"
    /\ obscure_email ("example" ++ "@" ++ "gmail.com")
       = Ok (maskedLocalPart ++ "@" ++ "gmail.com")
    /\ String.length (maskedLocalPart ++ "@" ++ "gmail.com")
       = String.length ("example" ++ "@" ++ "gmail.com").
Proof. apply (email_keeps_domain "example" "gmail.com"); reflexivity. Defined.

(** X5: a local part of at most four characters is not masked at all:
    [obscure.email] returns such an address unchanged. *)
Theorem email_short_local_part_unmasked (localPart domain : string) :
  Js.includes localPart "@" = false ->
  Js.includes domain "@" = false ->
  String.length localPart <= 4 ->
  obscure_email (localPart ++ "@" ++ domain) = Ok (localPart ++ "@" ++ domain).
Proof.
  intros Hl Hd Hlen. rewrite (email_of_parts _ _ Hl Hd).
  rewrite ObscureFacts.obscure_short_is_identity_general by lia. reflexivity.
Qed.

Lemma email_short_local_part_unmasked_witness :
  obscure_email ("anna" ++ "@" ++ "x.org") = Ok ("anna" ++ "@" ++ "x.org").
Proof.
  apply (email_short_local_part_unmasked "anna" "x.org"); [reflexivity | reflexivity |].
  simpl. lia.
Defined.

(** *** phone *)

(** X6: [obscure.phone] returns a string for every input, and the string
    is as long as the input, whether or not the input is taken for a phone
    number. *)
Theorem phone_keeps_length (str : string) :
  exists out, obscure_phone str = Ok out /\ String.length out = String.length str.
Proof.
  unfold obscure_phone, Obscure.phone. simpl Obscure._string. simpl Obscure._mask.
  destruct (Obscure.phoneRegex_test (Obscure.normalizePhone str)); simpl negb; cbv iota.
  - destruct (ObscureFacts.obscure_2_2_length (Obscure.normalizePhone str) "*" eq_refl)
      as [masked [Hmasked Hlen]].
    rewrite Hmasked. simpl bind. eexists. split; [reflexivity |].
    apply (ObscureFacts.reformat_layout str masked 0). rewrite Hlen. simpl. lia.
  - apply (ObscureFacts.obscure_2_2_length str "*" eq_refl).
Qed.

(** The digit-or-'+' character at position [i] is the one of that rank in
    the normalized string. *)
Lemma normalizePhone_rank (str : string) (i : nat) (c : ascii) :
  String.get i str = Some c -> Obscure.isPhoneChar c = true ->
  String.get (String.length (Obscure.normalizePhone (Js.take i str)))
    (Obscure.normalizePhone str) = Some c.
Proof.
  revert i; induction str as [|d str IH]; intros i Hget Hc; [destruct i; discriminate |].
  destruct i as [|i]; simpl in Hget.
  - injection Hget as ->. simpl. rewrite Hc. reflexivity.
  - simpl. destruct (Obscure.isPhoneChar d); simpl; now apply IH.
Qed.

(** X7: when the normalized string matches the phone pattern, every digit or
    '+' of the input other than the first two and the last two such
    characters is replaced by '*', and those four stay as they are. *)
Theorem phone_hides_middle (str : string) :
  Obscure.phoneRegex_test (Obscure.normalizePhone str) = true ->
  exists out,
    obscure_phone str = Ok out
    /\ forall i c,
         String.get i str = Some c -> Obscure.isPhoneChar c = true ->
         let rank := String.length (Obscure.normalizePhone (Js.take i str)) in
         let significant := String.length (Obscure.normalizePhone str) in
         (2 <= rank < significant - 2 -> String.get i out = Some "*"%char)
         /\ (rank < 2 \/ significant - 2 <= rank -> String.get i out = Some c).
Proof.
  intros Hvalid.
  set (normalized := Obscure.normalizePhone str) in *.
  assert (Hout : forall masked,
            Obscure.obscure normalized 2 2 "*" = Ok masked ->
            String.length masked = String.length normalized ->
            obscure_phone str = Ok (Obscure.reformat str masked 0 EmptyString)
            /\ forall i c, String.get i str = Some c -> Obscure.isPhoneChar c = true ->
                 String.get i (Obscure.reformat str masked 0 EmptyString)
                 = String.get (String.length (Obscure.normalizePhone (Js.take i str)))
                     masked).
  { intros masked Hm Hlen. split.
    - unfold obscure_phone, Obscure.phone. simpl Obscure._string. simpl Obscure._mask.
      fold normalized. rewrite Hvalid. simpl negb. cbv iota. now rewrite Hm.
    - intros i c Hget Hc.
      destruct (ObscureFacts.reformat_layout str masked 0) as [_ Hpos].
      { fold normalized. rewrite Hlen. simpl. lia. }
      specialize (Hpos i c Hget). rewrite Hc in Hpos. apply Hpos. }
  destruct (Nat.le_gt_cases (String.length normalized) 4) as [Hshort|Hlong].
  - destruct (Hout normalized) as [Hphone Hpos];
      [apply ObscureFacts.obscure_short_is_identity_general; lia | reflexivity |].
    eexists. split; [exact Hphone |].
    intros i c Hget Hc rank significant.
    rewrite (Hpos i c Hget Hc).
    split; [subst significant; fold normalized; lia |].
    intros _. now apply normalizePhone_rank.
  - destruct (Hout (Spec.masked normalized 2 2 "*")) as [Hphone Hpos].
    { apply (ObscureFacts.obscure_masks_middle normalized 2 2 "*"); lia. }
    { unfold Spec.masked. autorewrite with js_length. simpl String.length. lia. }
    eexists. split; [exact Hphone |].
    intros i c Hget Hc rank significant.
    rewrite (Hpos i c Hget Hc). fold rank.
    destruct (masked_positions normalized 2 2 "*"%char rank ltac:(lia) ltac:(lia))
      as [Hfirst [Hmid Hlast]].
    pose proof (normalizePhone_rank str i c Hget Hc) as Hrank.
    fold rank in Hrank. fold normalized in Hrank.
    subst significant. fold normalized.
    split.
    + intros H. apply Hmid. lia.
    + intros [H|H]; [rewrite Hfirst by lia | rewrite Hlast by lia]; exact Hrank.
Qed.

Lemma phone_hides_middle_witness :
  exists out,
    obscure_phone "+1 (234) 567-890" = Ok out
    /\ forall i c,
         String.get i "+1 (234) 567-890" = Some c -> Obscure.isPhoneChar c = true ->
         (2 <= String.length (Obscure.normalizePhone (Js.take i "+1 (234) 567-890"))
          < String.length (Obscure.normalizePhone "+1 (234) 567-890") - 2 ->
          String.get i out = Some "*"%char)
         /\ (String.length (Obscure.normalizePhone (Js.take i "+1 (234) 567-890")) < 2
             \/ String.length (Obscure.normalizePhone "+1 (234) 567-890") - 2
                <= String.length (Obscure.normalizePhone (Js.take i "+1 (234) 567-890")) ->
             String.get i out = Some c).
Proof. apply (phone_hides_middle "+1 (234) 567-890"). reflexivity. Defined.

(** Configuring an instance through its setters and rendering it is the
    exported function on the same four values. *)
Lemma setters_then_toString (str other : string) (start end_ : Z) (mask : string) :
  Obscure.toString
    (ObscureAccessors.set_string
       (ObscureAccessors.set_mask
          (ObscureAccessors.set_end
             (ObscureAccessors.set_start (Obscure.new other None None None) start)
             end_)
          mask)
       str)
  = obscure str (Some start) (Some end_) (Some mask).
Proof. reflexivity. Qed.

End ObscureMore.

(** ** uuidGenerator with a separator *)

Module UuidGeneratorMore.

Import UuidGenerator.

(** X8: with a non-empty separator, [uuidGenerator] returns the non-empty
    components among prefix, hash, id and suffix, in that order, joined by
    the separator, provided the joined text does not itself start or end
    with the separator. *)
Theorem uuidGenerator_joins_with_separator
    (uuid : string) (uuid_v5 : string -> string -> string)
    (name namespace : string) (options : UUIDGeneratorOptions) :
  orEmpty (separator options) <> EmptyString ->
  Js.startsWith
    (Spec.assemble (orEmpty (prefix options)) (uuid_v5 name namespace) uuid
       (orEmpty (suffix options)) (orEmpty (separator options)))
    (orEmpty (separator options)) = false ->
  Js.endsWith
    (Spec.assemble (orEmpty (prefix options)) (uuid_v5 name namespace) uuid
       (orEmpty (suffix options)) (orEmpty (separator options)))
    (orEmpty (separator options)) = false ->
  uuidGenerator uuid uuid_v5 name namespace options
  = Spec.assemble (orEmpty (prefix options)) (uuid_v5 name namespace) uuid
      (orEmpty (suffix options)) (orEmpty (separator options)).
Proof.
  intros Hsep Hstart Hend.
  now apply UuidGeneratorFacts.uuidGenerator_joins_components.
Qed.

Lemma uuidGenerator_joins_with_separator_witness :
  uuidGenerator "123e4567-e89b-42d3-a456-426614174000"
    (fun _ _ => "6ba7b810-9dad-51d1-80b4-00c04fd430c8") "name" "namespace"
    {| prefix := Some "user"; suffix := None; separator := Some "-" |}
  = Spec.assemble "user" "6ba7b810-9dad-51d1-80b4-00c04fd430c8"
      "123e4567-e89b-42d3-a456-426614174000" EmptyString "-".
Proof.
  apply (uuidGenerator_joins_with_separator
           "123e4567-e89b-42d3-a456-426614174000"
           (fun _ _ => "6ba7b810-9dad-51d1-80b4-00c04fd430c8") "name" "namespace"
           {| prefix := Some "user"; suffix := None; separator := Some "-" |});
    [discriminate | reflexivity | reflexivity].
Defined.

End UuidGeneratorMore.

(** ** generateUniqueId: length, alphabet, entropy, validity in time *)

Module UniqueIdMore.

Import UniqueId.

(** The value returned for a sufficient length. *)
Lemma generateUniqueId_value
    (now : N) (entropy : nat -> Byte.byte)
    (length : Z) (prefix suffix : option string) :
  (Z.of_nat (String.length (toString36 now)) <= length)%Z ->
  (length <= 65536)%Z ->
  generateUniqueId now entropy (Some length) prefix suffix
  = Ok (Spec.uniqueId prefix
          (toString36 now
           ++ Spec.randomPart (filled entropy (Z.to_nat length))
                (Z.to_nat length))
          suffix).
Proof.
  intros Hlen Hquota. pose proof (UniqueIdFacts.toString36_not_empty now) as Hts.
  unfold generateUniqueId.
  destruct (length <? Z.of_nat (String.length (toString36 now)))%Z eqn:E;
    [apply Z.ltb_lt in E; lia |].
  cbv zeta. rewrite UniqueIdFacts.getRandomValues_within_quota by lia. simpl bind.
  rewrite (map_ext _ _ UniqueIdFacts.padStart_toString36_byte).
  rewrite JsFacts.slice_0 by lia.
  unfold Js.join at 1.
  fold (Spec.randomPart (filled entropy (Z.to_nat length)) (Z.to_nat length)).
  unfold Spec.uniqueId.
  destruct (toString36 now) as [|c ts]; [simpl in Hts; lia |].
  destruct prefix as [[|p0 p]|], suffix as [[|s0 s]|]; reflexivity.
Qed.

Lemma length_randomPart (entropy : nat -> Byte.byte) (n : nat) :
  String.length (Spec.randomPart (filled entropy n) n) = n.
Proof.
  unfold Spec.randomPart.
  rewrite JsFacts.length_take, UniqueIdFacts.length_concat_encodeByte,
    UniqueIdFacts.length_filled.
  lia.
Qed.

(** X9: for a length from the number of timestamp digits up to 65536, and
    without prefix and suffix, an identifier is returned and it has as many
    characters as the timestamp plus [length]: [length] counts the random
    part only. *)
Theorem generateUniqueId_length
    (now : N) (entropy : nat -> Byte.byte) (length : Z) :
  (Z.of_nat (String.length (toString36 now)) <= length)%Z ->
  (length <= 65536)%Z ->
  exists id,
    generateUniqueId now entropy (Some length) None None = Ok id
    /\ Z.of_nat (String.length id)
       = (Z.of_nat (String.length (toString36 now)) + length)%Z.
Proof.
  intros Hlen Hquota. eexists. split; [now apply generateUniqueId_value |].
  unfold Spec.uniqueId. simpl filter.
  destruct (toString36 now
            ++ Spec.randomPart (filled entropy (Z.to_nat length))
                 (Z.to_nat length)) as [|c rest] eqn:E.
  - apply (f_equal String.length) in E.
    rewrite JsFacts.length_app, length_randomPart in E. simpl in E. simpl. lia.
  - simpl Js.truthy. cbv iota. unfold Js.join. simpl String.concat.
    rewrite <- E, JsFacts.length_app, length_randomPart. lia.
Qed.

Lemma generateUniqueId_length_witness :
  exists id,
    generateUniqueId 1762150000000 (fun _ => Byte.x41) (Some 16%Z) None None = Ok id
    /\ Z.of_nat (String.length id)
       = (Z.of_nat (String.length (toString36 1762150000000)) + 16)%Z.
Proof.
  apply (generateUniqueId_length 1762150000000 (fun _ => Byte.x41) 16).
  - vm_compute. discriminate.
  - lia.
Defined.

(** *** The alphabet *)

Lemma all_app (p : ascii -> bool) (a b : string) :
  Chars.all p (a ++ b) = Chars.all p a && Chars.all p b.
Proof.
  induction a as [|c a IH]; simpl; [reflexivity |].
  now rewrite IH, andb_assoc.
Qed.

Lemma all_take (p : ascii -> bool) (n : nat) (s : string) :
  Chars.all p s = true -> Chars.all p (Js.take n s) = true.
Proof.
  revert s; induction n as [|n IH]; intros [|c s]; simpl; trivial.
  intros H. apply andb_true_iff in H. destruct H as [Hc Hs].
  now rewrite Hc, IH.
Qed.

Lemma all_concat (p : ascii -> bool) (parts : list string) :
  Forall (fun part => Chars.all p part = true) parts ->
  Chars.all p (String.concat EmptyString parts) = true.
Proof.
  induction 1 as [|x parts Hx Hparts IH]; [reflexivity |].
  simpl. destruct parts as [|y parts]; [exact Hx |].
  rewrite all_app, Hx. simpl append. exact IH.
Qed.

Lemma digit36_isBase36 (d : N) : (d < 36)%N -> Chars.isBase36 (digit36 d) = true.
Proof.
  intros H.
  assert (Hall : forallb (fun k => Chars.isBase36 (digit36 (N.of_nat k))) (seq 0 36) = true)
    by reflexivity.
  rewrite forallb_forall in Hall.
  specialize (Hall (N.to_nat d)). rewrite N2Nat.id in Hall.
  apply Hall. apply in_seq. lia.
Qed.

Lemma toString36_digits_isBase36 (fuel : nat) (n : N) (acc : string) :
  Chars.all Chars.isBase36 acc = true ->
  Chars.all Chars.isBase36 (toString36_digits fuel n acc) = true.
Proof.
  revert n acc; induction fuel as [|fuel IH]; intros n acc Hacc; [exact Hacc |].
  simpl toString36_digits.
  assert (Hstep : Chars.all Chars.isBase36 (String (digit36 (n mod 36)) acc) = true).
  { cbn [Chars.all]. rewrite digit36_isBase36 by (apply N.mod_lt; lia). exact Hacc. }
  destruct (n / 36 =? 0)%N; [exact Hstep | now apply IH].
Qed.

Lemma encodeByte_isBase36 (b : Byte.byte) :
  Chars.all Chars.isBase36 (Spec.encodeByte b) = true.
Proof. destruct b; reflexivity. Qed.

(** X10: for a length from the number of timestamp digits up to 65536,
    and without prefix and suffix, an identifier is returned and every
    character of it is one of 0-9 and a-z. *)
Theorem generateUniqueId_alphabet
    (now : N) (entropy : nat -> Byte.byte) (length : Z) :
  (Z.of_nat (String.length (toString36 now)) <= length)%Z ->
  (length <= 65536)%Z ->
  exists id,
    generateUniqueId now entropy (Some length) None None = Ok id
    /\ Chars.all Chars.isBase36 id = true.
Proof.
  intros Hlen Hquota. eexists. split; [now apply generateUniqueId_value |].
  assert (Hcore : Chars.all Chars.isBase36
                    (toString36 now
                     ++ Spec.randomPart (filled entropy (Z.to_nat length))
                          (Z.to_nat length)) = true).
  { rewrite all_app. apply andb_true_iff. split.
    - now apply toString36_digits_isBase36.
    - apply all_take, all_concat, Forall_map, Forall_forall.
      intros b _. apply encodeByte_isBase36. }
  unfold Spec.uniqueId. simpl filter.
  destruct (toString36 now
            ++ Spec.randomPart (filled entropy (Z.to_nat length))
                 (Z.to_nat length)) as [|c rest]; [reflexivity |].
  exact Hcore.
Qed.

Lemma generateUniqueId_alphabet_witness :
  exists id,
    generateUniqueId 1762150000000 (fun _ => Byte.xff) (Some 16%Z) None None = Ok id
    /\ Chars.all Chars.isBase36 id = true.
Proof.
  apply (generateUniqueId_alphabet 1762150000000 (fun _ => Byte.xff) 16).
  - vm_compute. discriminate.
  - lia.
Defined.

(** *** How much of the entropy is used *)

Lemma concat_cons (x : string) (parts : list string) :
  String.concat EmptyString (x :: parts) = x ++ String.concat EmptyString parts.
Proof.
  destruct parts as [|y parts]; simpl; [now rewrite JsFacts.app_empty_r | reflexivity].
Qed.

Lemma half_step (n : nat) : (S (S n) + 1) / 2 = S ((n + 1) / 2).
Proof.
  replace (S (S n) + 1) with (n + 1 + 1 * 2) by lia.
  rewrite Nat.div_add by lia. lia.
Qed.

(** The first [n] characters of the concatenated encodings depend on the
    first [(n + 1) / 2] bytes only. *)
Lemma randomPart_prefix (bytes : list Byte.byte) (n : nat) :
  Spec.randomPart bytes n = Spec.randomPart (firstn ((n + 1) / 2) bytes) n.
Proof.
  unfold Spec.randomPart.
  revert n; induction bytes as [|b bytes IH]; intros n; [now rewrite firstn_nil |].
  destruct n as [|[|n]]; [reflexivity | |].
  { change ((1 + 1) / 2) with 1. cbn [firstn map]. now rewrite !concat_cons. }
  rewrite half_step. cbn [firstn map]. rewrite !concat_cons.
  unfold Spec.encodeByte at 1 3. cbn [append Js.take].
  now rewrite IH.
Qed.

Lemma firstn_seq_le (k n a : nat) : k <= n -> firstn k (seq a n) = seq a k.
Proof.
  revert n a; induction k as [|k IH]; intros n a H; [reflexivity |].
  destruct n as [|n]; [lia |]. simpl. now rewrite IH by lia.
Qed.

Lemma firstn_filled (entropy : nat -> Byte.byte) (k n : nat) :
  k <= n ->
  firstn k (filled entropy n) = filled entropy k.
Proof.
  intros H. unfold filled.
  now rewrite firstn_map, firstn_seq_le.
Qed.

Lemma filled_ext (e1 e2 : nat -> Byte.byte) (k : nat) :
  (forall i, i < k -> e1 i = e2 i) ->
  filled e1 k = filled e2 k.
Proof.
  intros H. unfold filled. apply map_ext_in.
  intros i Hi. apply in_seq in Hi. apply H. lia.
Qed.

(** X11: the identifier depends on the first [(length + 1) / 2] random
    bytes only: two entropy sources that agree on them give the same
    result, the later bytes are drawn and cut off. *)
Theorem generateUniqueId_uses_half_the_bytes
    (now : N) (entropy1 entropy2 : nat -> Byte.byte)
    (length : Z) (prefix suffix : option string) :
  (forall i, i < (Z.to_nat length + 1) / 2 -> entropy1 i = entropy2 i) ->
  generateUniqueId now entropy1 (Some length) prefix suffix
  = generateUniqueId now entropy2 (Some length) prefix suffix.
Proof.
  intros Hagree.
  destruct (Z.lt_ge_cases length (Z.of_nat (String.length (toString36 now))))
    as [Hshort|Hlong].
  - unfold generateUniqueId.
    destruct (length <? Z.of_nat (String.length (toString36 now)))%Z eqn:E;
      [reflexivity | apply Z.ltb_ge in E; lia].
  - destruct (Z.le_gt_cases length 65536) as [Hquota|Hquota].
    2: { unfold generateUniqueId.
         destruct (length <? Z.of_nat (String.length (toString36 now)))%Z;
           [reflexivity |].
         cbv zeta.
         now rewrite !UniqueIdFacts.getRandomValues_above_quota by lia. }
    rewrite !generateUniqueId_value by lia.
    rewrite (randomPart_prefix (filled entropy1 _)).
    rewrite (randomPart_prefix (filled entropy2 _)).
    assert (Hhalf : (Z.to_nat length + 1) / 2 <= Z.to_nat length).
    { pose proof (UniqueIdFacts.toString36_not_empty now).
      apply Nat.Div0.div_le_upper_bound. lia. }
    rewrite !firstn_filled by exact Hhalf.
    now rewrite (filled_ext entropy1 entropy2 _ Hagree).
Qed.

Lemma generateUniqueId_uses_half_the_bytes_witness :
  generateUniqueId 1762150000000
    (fun i => if (i <? 5)%nat then Byte.x41 else Byte.x00) (Some 10%Z) None None
  = generateUniqueId 1762150000000
      (fun i => if (i <? 5)%nat then Byte.x41 else Byte.xff) (Some 10%Z) None None.
Proof.
  apply (generateUniqueId_uses_half_the_bytes 1762150000000
           (fun i => if (i <? 5)%nat then Byte.x41 else Byte.x00)
           (fun i => if (i <? 5)%nat then Byte.x41 else Byte.xff) 10 None None).
  change ((Z.to_nat 10 + 1) / 2) with 5.
  intros i Hi. apply Nat.ltb_lt in Hi. now rewrite Hi.
Defined.

(** *** For how long a length is accepted *)

(** The digit loop, given enough fuel, writes a numeral without a leading
    zero: its length [k] satisfies [36^(k-1) <= n < 36^k] (the lower bound
    for [k > 1]). *)
Lemma toString36_digits_bounds (fuel : nat) :
  forall (n : N) (acc : string),
    0 < fuel -> (n < 2 ^ N.of_nat fuel)%N ->
    exists digits,
      toString36_digits fuel n acc = digits ++ acc
      /\ 0 < String.length digits
      /\ (n < 36 ^ N.of_nat (String.length digits))%N
      /\ (1 < String.length digits ->
          (36 ^ N.of_nat (String.length digits - 1) <= n)%N).
Proof.
  induction fuel as [|fuel IH]; intros n acc Hfuel Hn; [lia |].
  simpl toString36_digits.
  destruct (n / 36 =? 0)%N eqn:E.
  - apply N.eqb_eq in E.
    exists (String (digit36 (n mod 36)) EmptyString). split; [reflexivity |].
    cbn [String.length]. split; [lia |]. split; [| lia].
    pose proof (N.div_mod n 36 ltac:(lia)) as Hdm. rewrite E in Hdm.
    pose proof (N.mod_lt n 36 ltac:(lia)).
    change (36 ^ N.of_nat 1)%N with 36%N. lia.
  - apply N.eqb_neq in E.
    assert (Hge : (36 <= n)%N).
    { destruct (N.lt_ge_cases n 36) as [Hlt|]; [| assumption].
      rewrite N.div_small in E by assumption. congruence. }
    assert (Hfuel' : 0 < fuel).
    { destruct fuel; [| lia]. simpl in Hn. lia. }
    assert (Hdiv : (n / 36 < 2 ^ N.of_nat fuel)%N).
    { apply N.Div0.div_lt_upper_bound.
      replace (N.of_nat (S fuel)) with (N.succ (N.of_nat fuel)) in Hn by lia.
      rewrite N.pow_succ_r' in Hn. lia. }
    destruct (IH (n / 36)%N (String (digit36 (n mod 36)) acc) Hfuel' Hdiv)
      as [digits [Heq [Hlen [Hup Hlow]]]].
    exists (digits ++ String (digit36 (n mod 36)) EmptyString).
    split; [rewrite Heq, JsFacts.app_assoc; reflexivity |].
    rewrite JsFacts.length_app. cbn [String.length].
    split; [lia |].
    pose proof (N.div_mod n 36 ltac:(lia)) as Hdm.
    pose proof (N.mod_lt n 36 ltac:(lia)) as Hmod.
    split.
    + replace (N.of_nat (String.length digits + 1))
        with (N.succ (N.of_nat (String.length digits))) by lia.
      rewrite N.pow_succ_r'. lia.
    + intros _.
      replace (String.length digits + 1 - 1) with (String.length digits) by lia.
      destruct (Nat.eq_dec (String.length digits) 1) as [H1|H1].
      * rewrite H1. change (36 ^ N.of_nat 1)%N with 36%N. exact Hge.
      * specialize (Hlow ltac:(lia)).
        replace (N.of_nat (String.length digits))
          with (N.succ (N.of_nat (String.length digits - 1))) by lia.
        rewrite N.pow_succ_r'.
        clear - Hlow Hdm.
        generalize dependent (36 ^ N.of_nat (String.length digits - 1))%N.
        generalize dependent (n / 36)%N. generalize dependent (n mod 36)%N.
        intros r q Hdm p Hlow. lia.
Qed.

(** The timestamp has at most [k] digits exactly when it is below [36^k]. *)
Lemma toString36_length_le (n : N) (k : nat) :
  0 < k ->
  String.length (toString36 n) <= k <-> (n < 36 ^ N.of_nat k)%N.
Proof.
  intros Hk. unfold toString36.
  destruct (toString36_digits_bounds (S (N.to_nat (N.log2 n))) n EmptyString
              ltac:(lia) (UniqueIdFacts.toString36_enough_fuel n))
    as [digits [Heq [Hlen [Hup Hlow]]]].
  rewrite Heq, JsFacts.app_empty_r. split.
  - intros H. eapply N.lt_le_trans; [exact Hup |].
    apply N.pow_le_mono_r; lia.
  - intros H. destruct (Nat.le_gt_cases (String.length digits) k) as [|Hgt]; [assumption |].
    specialize (Hlow ltac:(lia)).
    assert (36 ^ N.of_nat k <= 36 ^ N.of_nat (String.length digits - 1))%N
      by (apply N.pow_le_mono_r; lia).
    lia.
Qed.

(** X12: for a length [k] from 1 to 65536, [generateUniqueId] throws
    exactly when the clock has reached [36^k] milliseconds; below that it
    returns an identifier.  A length of 8 is accepted until 36^8 ms, in
    2059. *)
Theorem generateUniqueId_accepted_until
    (now : N) (entropy : nat -> Byte.byte) (k : nat)
    (prefix suffix : option string) :
  0 < k -> (Z.of_nat k <= 65536)%Z ->
  ((exists e, generateUniqueId now entropy (Some (Z.of_nat k)) prefix suffix = Throw e)
   <-> (36 ^ N.of_nat k <= now)%N)
  /\ ((exists id, generateUniqueId now entropy (Some (Z.of_nat k)) prefix suffix = Ok id)
      <-> (now < 36 ^ N.of_nat k)%N).
Proof.
  intros Hk Hquota. pose proof (toString36_length_le now k Hk) as Hle.
  unfold generateUniqueId.
  rewrite (UniqueIdFacts.getRandomValues_within_quota entropy (Z.to_nat (Z.of_nat k)))
    by lia.
  simpl bind.
  destruct (Z.of_nat k <? Z.of_nat (String.length (toString36 now)))%Z eqn:E.
  - apply Z.ltb_lt in E. split.
    + split; [intros _ | intros _; eexists; reflexivity].
      apply N.le_ngt. intros H. apply Hle in H. lia.
    + split; [intros [id H]; discriminate |].
      intros H. apply Hle in H. lia.
  - apply Z.ltb_ge in E. split.
    + split; [intros [e H]; discriminate |].
      intros H. assert (now < 36 ^ N.of_nat k)%N by (apply Hle; lia). lia.
    + split; [intros _; apply Hle; lia | intros _; eexists; reflexivity].
Qed.

Lemma generateUniqueId_accepted_until_witness :
  ((exists e, generateUniqueId 2821109907456 (fun _ => Byte.x41) (Some (Z.of_nat 8))
                None None = Throw e)
   <-> (36 ^ N.of_nat 8 <= 2821109907456)%N)
  /\ ((exists id, generateUniqueId 2821109907456 (fun _ => Byte.x41) (Some (Z.of_nat 8))
                   None None = Ok id)
      <-> (2821109907456 < 36 ^ N.of_nat 8)%N).
Proof.
  apply (generateUniqueId_accepted_until 2821109907456 (fun _ => Byte.x41) 8 None None).
  - lia.
  - lia.
Defined.

(** X13: a length of zero or less is refused whatever the clock shows,
    since a timestamp has at least one digit. *)
Theorem generateUniqueId_refuses_non_positive
    (now : N) (entropy : nat -> Byte.byte) (length : Z)
    (prefix suffix : option string) :
  (length <= 0)%Z ->
  generateUniqueId now entropy (Some length) prefix suffix
  = Throw (InvalidLength (String.length (toString36 now))).
Proof.
  intros H. pose proof (UniqueIdFacts.toString36_not_empty now) as Hts.
  unfold generateUniqueId.
  destruct (length <? Z.of_nat (String.length (toString36 now)))%Z eqn:E;
    [reflexivity | apply Z.ltb_ge in E; lia].
Qed.

Lemma generateUniqueId_refuses_non_positive_witness :
  generateUniqueId 0 (fun _ => Byte.x00) (Some 0%Z) None None
  = Throw (InvalidLength (String.length (toString36 0))).
Proof.
  apply (generateUniqueId_refuses_non_positive 0 (fun _ => Byte.x00) 0 None None). lia.
Defined.

End UniqueIdMore.

(** ** stringifyParams: validation order, modes and output shapes *)

Module StringifyParamsMore.

Import StringifyParams.

Lemma fold_left_pairs {A B : Type} (f : A -> list B) (entries : list A) (acc : list B) :
  fold_left (fun pairs entry => (pairs ++ f entry)%list) entries acc
  = (acc ++ flat_map f entries)%list.
Proof.
  revert acc; induction entries as [|e entries IH]; intros acc; simpl.
  - now rewrite List.app_nil_r.
  - now rewrite IH, <- List.app_assoc.
Qed.

(** The pair list of the URLSearchParams form. *)
Lemma stringifyParams_pairs
    (entries : list (string * paramValue))
    (sep : option string) (mode : option ArrayType) (objects : option bool) :
  stringifyParams (Mapping entries)
    {| separator := sep; arrayType := mode; serializeObjects := objects;
       returnType := Some URLSearchParams |}
  = Ok (AsURLSearchParams
          (flat_map (entryPairs (Entries.withDefault mode none) (Entries.withDefault objects false))
             entries)).
Proof.
  unfold stringifyParams. simpl. rewrite fold_left_pairs.
  destruct mode, objects; reflexivity.
Qed.

Lemma render_pairs (pairs : list (string * string)) :
  map (fun '(k, v) => k ++ "=" ++ v) pairs = map Entries.render pairs.
Proof. apply map_ext. intros [k v]. reflexivity. Qed.

(** The string form, when the separator passes the check. *)
Lemma stringifyParams_string
    (entries : list (string * paramValue))
    (sep : option string) (mode : option ArrayType) (objects : option bool) :
  Entries.withDefault sep "&" <> EmptyString ->
  Js.includes (Entries.withDefault sep "&") "=" = false ->
  stringifyParams (Mapping entries)
    {| separator := sep; arrayType := mode; serializeObjects := objects;
       returnType := Some string_ |}
  = Ok (AsString
          (Js.join
             (map Entries.render
                (flat_map (entryPairs (Entries.withDefault mode none) (Entries.withDefault objects false))
                   entries))
             (Entries.withDefault sep "&"))).
Proof.
  intros Hne Heq. unfold stringifyParams. simpl bind. cbv zeta.
  cbn [separator arrayType serializeObjects returnType].
  change (match sep with Some s => s | None => "&" end) with (Entries.withDefault sep "&").
  rewrite Heq.
  destruct (Entries.withDefault sep "&") as [|c rest] eqn:E; [congruence |].
  cbn [String.length Nat.eqb orb]. rewrite fold_left_pairs, render_pairs.
  destruct mode, objects; reflexivity.
Qed.

(** X14: [stringifyParams] throws the parameters error exactly when
    [params] is not a mapping (null, an array, a primitive), whatever the
    options are, an invalid separator included: the parameters are
    validated before the separator. *)
Theorem stringifyParams_invalid_params_iff (p : params) (options : StringifyParamsOptions) :
  stringifyParams p options = Throw InvalidParams
  <-> forall entries, p <> Mapping entries.
Proof.
  split.
  - intros H entries ->. unfold stringifyParams in H. simpl bind in H.
    destruct (match returnType options with
              | Some string_ => _
              | _ => false
              end); [discriminate |].
    destruct (returnType options) as [[|]|]; discriminate.
  - intros H. destruct p as [entries| | |]; try reflexivity.
    now contradiction (H entries).
Qed.

(** X15: the two output shapes agree: when the separator passes the check,
    the string form is the pairs of the URLSearchParams form, each rendered
    as key=value, joined by the separator in the same order. *)
Theorem stringifyParams_string_of_pairs
    (entries : list (string * paramValue))
    (sep : option string) (mode : option ArrayType) (objects : option bool)
    (pairs : list (string * string)) :
  Entries.withDefault sep "&" <> EmptyString ->
  Js.includes (Entries.withDefault sep "&") "=" = false ->
  stringifyParams (Mapping entries)
    {| separator := sep; arrayType := mode; serializeObjects := objects;
       returnType := Some URLSearchParams |} = Ok (AsURLSearchParams pairs) ->
  stringifyParams (Mapping entries)
    {| separator := sep; arrayType := mode; serializeObjects := objects;
       returnType := Some string_ |}
  = Ok (AsString (Js.join (map Entries.render pairs) (Entries.withDefault sep "&"))).
Proof.
  intros Hne Heq Hpairs. rewrite stringifyParams_pairs in Hpairs.
  injection Hpairs as <-. now apply stringifyParams_string.
Qed.

Lemma stringifyParams_string_of_pairs_witness :
  stringifyParams
    (Mapping [("a", Single (Number 1)); ("b", Array [Number 1; Number 2])])
    {| separator := Some ";"; arrayType := Some bracket; serializeObjects := None;
       returnType := Some string_ |}
  = Ok (AsString
          (Js.join
             (map Entries.render [("a", "1"); ("b[]", "1"); ("b[]", "2")])
             (Entries.withDefault (Some ";") "&"))).
Proof.
  apply (stringifyParams_string_of_pairs
           [("a", Single (Number 1)); ("b", Array [Number 1; Number 2])]
           (Some ";") (Some bracket) None
           [("a", "1"); ("b[]", "1"); ("b[]", "2")]);
    [discriminate | reflexivity | reflexivity].
Defined.

Lemma flat_map_exclude (mode : ArrayType) (objects : bool)
    (entries : list (string * paramValue)) :
  flat_map (entryPairs exclude objects) entries
  = flat_map (entryPairs mode objects) (filter Entries.isScalar entries).
Proof.
  induction entries as [|[key value] entries IH]; [reflexivity |].
  destruct value as [v|vs]; cbn [filter Entries.isScalar snd flat_map].
  - rewrite IH. reflexivity.
  - exact IH.
Qed.

(** X16: whatever exclude mode returns, value for value, is also returned,
    in any array mode, for the mapping without its array-valued entries. *)
Theorem stringifyParams_exclude_drops_arrays
    (entries : list (string * paramValue))
    (sep : option string) (mode : ArrayType) (objects : option bool)
    (shape : option ReturnType) (out : output) :
  stringifyParams (Mapping entries)
    {| separator := sep; arrayType := Some exclude; serializeObjects := objects;
       returnType := shape |} = Ok out ->
  stringifyParams (Mapping (filter Entries.isScalar entries))
    {| separator := sep; arrayType := Some mode; serializeObjects := objects;
       returnType := shape |} = Ok out.
Proof.
  intros H. rewrite <- H. clear H.
  unfold stringifyParams. simpl bind. cbv zeta.
  cbn [separator arrayType serializeObjects returnType].
  rewrite !fold_left_pairs. cbn [app].
  now rewrite (flat_map_exclude mode).
Qed.

Lemma stringifyParams_exclude_drops_arrays_witness :
  stringifyParams
    (Mapping
       (filter Entries.isScalar
          [("a", Single (Number 1)); ("b", Array [Number 1; Number 2]);
           ("c", Single (Bool true))]))
    {| separator := None; arrayType := Some bracket; serializeObjects := None;
       returnType := Some string_ |}
  = Ok (AsString "a=1&c=true").
Proof.
  apply (stringifyParams_exclude_drops_arrays
           [("a", Single (Number 1)); ("b", Array [Number 1; Number 2]);
            ("c", Single (Bool true))]
           None bracket None (Some string_) (AsString "a=1&c=true")).
  reflexivity.
Defined.

(** X18: the pairs come in the order of the entries: the pair list of two
    mappings put one after the other is the first pair list followed by
    the second. *)
Theorem stringifyParams_pairs_app
    (entries1 entries2 : list (string * paramValue))
    (sep : option string) (mode : option ArrayType) (objects : option bool)
    (pairs1 pairs2 : list (string * string)) :
  stringifyParams (Mapping entries1)
    {| separator := sep; arrayType := mode; serializeObjects := objects;
       returnType := Some URLSearchParams |} = Ok (AsURLSearchParams pairs1) ->
  stringifyParams (Mapping entries2)
    {| separator := sep; arrayType := mode; serializeObjects := objects;
       returnType := Some URLSearchParams |} = Ok (AsURLSearchParams pairs2) ->
  stringifyParams (Mapping (entries1 ++ entries2))
    {| separator := sep; arrayType := mode; serializeObjects := objects;
       returnType := Some URLSearchParams |}
  = Ok (AsURLSearchParams (pairs1 ++ pairs2)).
Proof.
  rewrite !stringifyParams_pairs. intros H1 H2.
  injection H1 as <-. injection H2 as <-.
  now rewrite flat_map_app.
Qed.

Lemma stringifyParams_pairs_app_witness :
  stringifyParams
    (Mapping ([("a", Single (Str "x y"))] ++ [("b", Array [Bool true; Null])]))
    {| separator := None; arrayType := None; serializeObjects := None;
       returnType := Some URLSearchParams |}
  = Ok (AsURLSearchParams ([("a", "x%20y")] ++ [("b", "true"); ("b", EmptyString)])).
Proof.
  apply (stringifyParams_pairs_app
           [("a", Single (Str "x y"))] [("b", Array [Bool true; Null])]
           None None None [("a", "x%20y")] [("b", "true"); ("b", EmptyString)]);
    reflexivity.
Defined.

(** X19: in comma mode every entry gives exactly one pair, in order: the
    key percent-encoded, and as value the encoded scalar or, for an array,
    its encoded elements joined by ','; an empty array gives the pair with
    the empty value. *)
Theorem stringifyParams_comma_one_pair_per_entry
    (entries : list (string * paramValue))
    (sep : option string) (objects : option bool)
    (pairs : list (string * string)) :
  stringifyParams (Mapping entries)
    {| separator := sep; arrayType := Some comma; serializeObjects := objects;
       returnType := Some URLSearchParams |} = Ok (AsURLSearchParams pairs) ->
  pairs
  = map
      (fun entry =>
         (encodeURIComponent (fst entry),
          match snd entry with
          | Single value =>
              encodeURIComponent
                (normalizeValue value (Entries.withDefault objects false))
          | Array values =>
              Js.join
                (map
                   (fun v =>
                      encodeURIComponent
                        (normalizeValue v (Entries.withDefault objects false)))
                   values)
                ","
          end))
      entries
  /\ forall key, In (key, Array []) entries ->
               In (encodeURIComponent key, EmptyString) pairs.
Proof.
  rewrite stringifyParams_pairs. intros H. injection H as <-.
  assert (Hmap :
    flat_map (entryPairs comma (Entries.withDefault objects false)) entries
    = map
        (fun entry =>
           (encodeURIComponent (fst entry),
            match snd entry with
            | Single value =>
                encodeURIComponent
                  (normalizeValue value (Entries.withDefault objects false))
            | Array values =>
                Js.join
                  (map
                     (fun v =>
                        encodeURIComponent
                          (normalizeValue v (Entries.withDefault objects false)))
                     values)
                  ","
            end))
        entries).
  { induction entries as [|[key value] entries IH]; [reflexivity |].
    cbn [flat_map map]. rewrite IH. destruct value; reflexivity. }
  split; [exact Hmap |].
  intros key Hin. cbn [Entries.withDefault]. rewrite Hmap.
  apply (in_map
           (fun entry =>
              (encodeURIComponent (fst entry),
               match snd entry with
               | Single value =>
                   encodeURIComponent
                     (normalizeValue value (Entries.withDefault objects false))
               | Array values =>
                   Js.join
                     (map
                        (fun v =>
                           encodeURIComponent
                             (normalizeValue v (Entries.withDefault objects false)))
                        values)
                     ","
               end))) in Hin.
  exact Hin.
Qed.

Lemma stringifyParams_comma_one_pair_per_entry_witness :
  [("a", EmptyString); ("b", "1,2"); ("c", "x%2Cy")]
  = map
      (fun entry =>
         (encodeURIComponent (fst entry),
          match snd entry with
          | Single value =>
              encodeURIComponent
                (normalizeValue value (Entries.withDefault None false))
          | Array values =>
              Js.join
                (map
                   (fun v =>
                      encodeURIComponent
                        (normalizeValue v (Entries.withDefault None false)))
                   values)
                ","
          end))
      [("a", Array []); ("b", Array [Number 1; Number 2]); ("c", Single (Str "x,y"))]
  /\ forall key,
       In (key, Array [])
         [("a", Array []); ("b", Array [Number 1; Number 2]); ("c", Single (Str "x,y"))] ->
       In (encodeURIComponent key, EmptyString)
         [("a", EmptyString); ("b", "1,2"); ("c", "x%2Cy")].
Proof.
  apply (stringifyParams_comma_one_pair_per_entry
           [("a", Array []); ("b", Array [Number 1; Number 2]); ("c", Single (Str "x,y"))]
           None None
           [("a", EmptyString); ("b", "1,2"); ("c", "x%2Cy")]).
  reflexivity.
Defined.

Lemma combine_app {A B : Type} (l1 l2 : list A) (k1 k2 : list B) :
  List.length l1 = List.length k1 ->
  combine (l1 ++ l2) (k1 ++ k2) = (combine l1 k1 ++ combine l2 k2)%list.
Proof.
  revert k1; induction l1 as [|x l1 IH]; intros [|y k1] H; simpl in *;
    try discriminate; [reflexivity |].
  now rewrite IH by congruence.
Qed.

(** One entry in bracket mode against the same entry in none mode. *)
Lemma entryPairs_bracket_none (objects : bool) (entry : string * paramValue) :
  List.length (Entries.arrayTags [entry])
  = List.length (entryPairs none objects entry)
  /\ map snd (entryPairs bracket objects entry)
     = map snd (entryPairs none objects entry)
  /\ map fst (entryPairs bracket objects entry)
     = map Entries.bracketKey
         (combine (Entries.arrayTags [entry])
            (map fst (entryPairs none objects entry))).
Proof.
  destruct entry as [key [value|values]].
  - repeat split.
  - cbn [Entries.arrayTags flat_map snd entryPairs]. rewrite List.app_nil_r.
    rewrite !length_map, !map_map. cbn [fst snd].
    split; [reflexivity |]. split; [reflexivity |].
    induction values as [|v values IH]; [reflexivity |].
    cbn [map combine]. now rewrite IH.
Qed.

(** X20: bracket mode and none mode give the same values in the same
    order, and the same keys except that bracket mode appends '[]' to the
    key of every pair that comes from an array entry, and to no other. *)
Theorem stringifyParams_bracket_same_values
    (entries : list (string * paramValue))
    (sep : option string) (objects : option bool)
    (pairsBracket pairsNone : list (string * string)) :
  stringifyParams (Mapping entries)
    {| separator := sep; arrayType := Some bracket; serializeObjects := objects;
       returnType := Some URLSearchParams |} = Ok (AsURLSearchParams pairsBracket) ->
  stringifyParams (Mapping entries)
    {| separator := sep; arrayType := Some none; serializeObjects := objects;
       returnType := Some URLSearchParams |} = Ok (AsURLSearchParams pairsNone) ->
  map snd pairsBracket = map snd pairsNone
  /\ List.length (Entries.arrayTags entries) = List.length pairsNone
  /\ map fst pairsBracket
     = map Entries.bracketKey (combine (Entries.arrayTags entries) (map fst pairsNone)).
Proof.
  rewrite !stringifyParams_pairs. intros H1 H2.
  injection H1 as <-. injection H2 as <-. cbn [Entries.withDefault].
  induction entries as [|entry entries IH]; [repeat split |].
  destruct IH as [IHsnd [IHlen IHfst]].
  destruct (entryPairs_bracket_none (Entries.withDefault objects false) entry)
    as [Hlen [Hsnd Hfst]].
  assert (Htags : Entries.arrayTags (entry :: entries)
                  = (Entries.arrayTags [entry] ++ Entries.arrayTags entries)%list).
  { unfold Entries.arrayTags. cbn [flat_map]. now rewrite List.app_nil_r. }
  rewrite Htags.
  { cbn [flat_map]. rewrite !map_app, !length_app.
    split; [now rewrite Hsnd, IHsnd |]. split; [now rewrite Hlen, IHlen |].
    rewrite combine_app by (now rewrite length_map).
    now rewrite map_app, Hfst, IHfst. }
Qed.

Lemma stringifyParams_bracket_same_values_witness :
  map snd [("a", "1"); ("b[]", "1"); ("b[]", "2")]
  = map snd [("a", "1"); ("b", "1"); ("b", "2")]
  /\ List.length
       (Entries.arrayTags
          [("a", Single (Number 1)); ("b", Array [Number 1; Number 2])])
     = List.length [("a", "1"); ("b", "1"); ("b", "2")]
  /\ map fst [("a", "1"); ("b[]", "1"); ("b[]", "2")]
     = map Entries.bracketKey
         (combine
            (Entries.arrayTags
               [("a", Single (Number 1)); ("b", Array [Number 1; Number 2])])
            (map fst [("a", "1"); ("b", "1"); ("b", "2")])).
Proof.
  apply (stringifyParams_bracket_same_values
           [("a", Single (Number 1)); ("b", Array [Number 1; Number 2])] None None
           [("a", "1"); ("b[]", "1"); ("b[]", "2")]
           [("a", "1"); ("b", "1"); ("b", "2")]);
    reflexivity.
Defined.

(** X21: with [returnType] absent the separator is not checked: the call
    does not throw the separator error; whenever the pair list is returned
    (by the call with [returnType: 'URLSearchParams']) it returns those
    pairs as key=value joined by the separator, whatever the separator is;
    and it returns what [returnType: 'string'] returns whenever that does
    not throw. *)
Theorem stringifyParams_absent_returnType
    (entries : list (string * paramValue))
    (sep : option string) (mode : option ArrayType) (objects : option bool) :
  stringifyParams (Mapping entries)
    {| separator := sep; arrayType := mode; serializeObjects := objects;
       returnType := None |} <> Throw InvalidSeparator
  /\ (forall pairs,
        stringifyParams (Mapping entries)
          {| separator := sep; arrayType := mode; serializeObjects := objects;
             returnType := Some URLSearchParams |} = Ok (AsURLSearchParams pairs) ->
        stringifyParams (Mapping entries)
          {| separator := sep; arrayType := mode; serializeObjects := objects;
             returnType := None |}
        = Ok (AsString
                (Js.join (map Entries.render pairs) (Entries.withDefault sep "&"))))
  /\ forall out,
       stringifyParams (Mapping entries)
         {| separator := sep; arrayType := mode; serializeObjects := objects;
            returnType := Some string_ |} = Ok out ->
       stringifyParams (Mapping entries)
         {| separator := sep; arrayType := mode; serializeObjects := objects;
            returnType := None |} = Ok out.
Proof.
  split; [| split].
  - unfold stringifyParams. simpl bind. discriminate.
  - intros pairs H. rewrite stringifyParams_pairs in H. injection H as <-.
    unfold stringifyParams. simpl bind. cbv zeta.
    cbn [separator arrayType serializeObjects returnType].
    rewrite fold_left_pairs, render_pairs.
    destruct sep, mode, objects; reflexivity.
  - unfold stringifyParams. simpl bind. cbv zeta.
    cbn [separator arrayType serializeObjects returnType].
    intros out.
    destruct ((String.length (match sep with Some s => s | None => "&" end) =? 0)%nat
              || Js.includes (match sep with Some s => s | None => "&" end) "=");
      [discriminate | trivial].
Qed.

Example stringifyParams_absent_returnType_equals_separator :
  stringifyParams (Mapping [("a", Single (Number 1)); ("b", Single (Number 2))])
    {| separator := Some "="; arrayType := None; serializeObjects := None;
       returnType := None |}
  = Ok (AsString "a=1=b=2").
Proof. reflexivity. Qed.

(** *** No delimiter inside a key or a value *)

Lemma encoded_char_no_delimiter (c : ascii) :
  Chars.all Chars.isNotDelimiter
    (if isUnreserved c then String c EmptyString
     else String.concat EmptyString (map percent (utf8 c))) = true.
Proof.
  destruct c as [b0 b1 b2 b3 b4 b5 b6 b7].
  destruct b0, b1, b2, b3, b4, b5, b6, b7; reflexivity.
Qed.

Lemma encodeURIComponent_no_delimiter (s : string) :
  Chars.all Chars.isNotDelimiter (encodeURIComponent s) = true.
Proof.
  induction s as [|c s IH]; [reflexivity |].
  cbn [encodeURIComponent].
  now rewrite UniqueIdMore.all_app, encoded_char_no_delimiter, IH.
Qed.

Lemma all_join (p : ascii -> bool) (sep : string) (parts : list string) :
  Chars.all p sep = true ->
  Forall (fun part => Chars.all p part = true) parts ->
  Chars.all p (Js.join parts sep) = true.
Proof.
  intros Hsep. unfold Js.join.
  induction 1 as [|x parts Hx Hparts IH]; [reflexivity |].
  simpl. destruct parts as [|y parts]; [exact Hx |].
  now rewrite !UniqueIdMore.all_app, Hx, Hsep, IH.
Qed.

Lemma entryPairs_no_delimiter (mode : ArrayType) (objects : bool)
    (entry : string * paramValue) :
  Forall
    (fun pair =>
       Chars.all Chars.isNotDelimiter (fst pair) = true
       /\ Chars.all Chars.isNotDelimiter (snd pair) = true)
    (entryPairs mode objects entry).
Proof.
  destruct entry as [key [value|values]].
  - repeat constructor; apply encodeURIComponent_no_delimiter.
  - assert (Hvalues :
      Forall (fun part => Chars.all Chars.isNotDelimiter part = true)
        (map (fun val => encodeURIComponent (normalizeValue val objects)) values)).
    { apply Forall_map, Forall_forall. intros v _.
      apply encodeURIComponent_no_delimiter. }
    destruct mode; cbn [entryPairs].
    + repeat constructor; cbn [fst snd].
      * apply encodeURIComponent_no_delimiter.
      * now apply all_join.
    + apply Forall_map. eapply Forall_impl; [| exact Hvalues].
      intros v Hv. cbn [fst snd]. split; [| exact Hv].
      now rewrite UniqueIdMore.all_app, encodeURIComponent_no_delimiter.
    + apply Forall_map. eapply Forall_impl; [| exact Hvalues].
      intros v Hv. cbn [fst snd]. split; [| exact Hv].
      apply encodeURIComponent_no_delimiter.
    + constructor.
Qed.

(** X17: no key and no value of the generated pairs contains '=' or '&',
    in any array mode and with or without object serialization: what the
    string form joins with '=' and the default '&' can be split again. *)
Theorem stringifyParams_pairs_no_delimiter
    (entries : list (string * paramValue))
    (sep : option string) (mode : option ArrayType) (objects : option bool)
    (pairs : list (string * string)) :
  stringifyParams (Mapping entries)
    {| separator := sep; arrayType := mode; serializeObjects := objects;
       returnType := Some URLSearchParams |} = Ok (AsURLSearchParams pairs) ->
  Forall
    (fun pair =>
       Chars.all Chars.isNotDelimiter (fst pair) = true
       /\ Chars.all Chars.isNotDelimiter (snd pair) = true)
    pairs.
Proof.
  rewrite stringifyParams_pairs. intros H. injection H as <-.
  induction entries as [|entry entries IH]; [constructor |].
  cbn [flat_map]. apply Forall_app. split; [apply entryPairs_no_delimiter | exact IH].
Qed.

Lemma stringifyParams_pairs_no_delimiter_witness :
  Forall
    (fun pair =>
       Chars.all Chars.isNotDelimiter (fst pair) = true
       /\ Chars.all Chars.isNotDelimiter (snd pair) = true)
    [("a%3Db", "x%26y%3Dz,2")].
Proof.
  apply (stringifyParams_pairs_no_delimiter
           [("a=b", Array [Str "x&y=z"; Number 2])] None (Some comma) None
           [("a%3Db", "x%26y%3Dz,2")]).
  reflexivity.
Defined.

End StringifyParamsMore.
